(** * RedisCommandEditor: batch execution and reply formatting

    A shallow embedding of [frontend/src/components/RedisCommandEditor.tsx]:
    the [handleExecute] handler (splitting the editor text into commands,
    running them one at a time through the backend call, recording one
    [CommandResult] per command and prepending the batch to the result
    list), [handleClear], and the [formatResult] renderer.

    Strings are JavaScript strings: finite sequences of UTF-16 code units.
    The runtime functions the component calls ([String.prototype.trim],
    [split], [startsWith], [Array.prototype.join], [Number::toString],
    [JSON.stringify]) are written out in module [JS]. *)

From Stdlib Require Import List NArith ZArith Bool Lia Sorted.
From Stdlib Require Import Ascii String DecimalString.
From Stdlib Require DecimalZ DecimalPos.
Import ListNotations.

Set Implicit Arguments.
Set Warnings "-register-all".

(** ** JavaScript strings and the runtime functions used by the component *)

Module JS.

(** A string value: its UTF-16 code units. *)
Definition jsstring := list N.

(** An ASCII literal as a JavaScript string. *)
Definition lit (s : String.string) : jsstring :=
  map Ascii.N_of_ascii (String.list_ascii_of_string s).

Definition LF : N := 10%N.
Definition DQUOTE : N := 34%N.

(** [WhiteSpace] and [LineTerminator] code points: what [trim] strips. *)
Definition is_white_space (c : N) : bool :=
  ((c =? 9) || (c =? 10) || (c =? 11) || (c =? 12) || (c =? 13) || (c =? 32)
   || (c =? 160) || (c =? 5760)
   || ((8192 <=? c) && (c <=? 8202))
   || (c =? 8232) || (c =? 8233) || (c =? 8239) || (c =? 8287)
   || (c =? 12288) || (c =? 65279))%N.

(** [trimStart]: the string from its first character that is not white
    space. *)
Fixpoint trimStart (s : jsstring) : jsstring :=
  match s with
  | [] => []
  | c :: s' => if is_white_space c then trimStart s' else s
  end.

(** [trimEnd]: the string up to its last character that is not white space;
    a character is kept when something after it is kept or when it is not
    white space itself. *)
Fixpoint trimEnd (s : jsstring) : jsstring :=
  match s with
  | [] => []
  | c :: s' =>
      match trimEnd s' with
      | [] => if is_white_space c then [] else [c]
      | t => c :: t
      end
  end.

(** [String.prototype.trim]: leading and trailing white space removed. *)
Definition trim (s : jsstring) : jsstring :=
  trimStart (trimEnd s).

(** Truthiness of a string: non-empty. *)
Definition truthy (s : jsstring) : bool :=
  match s with [] => false | _ :: _ => true end.

(** [s.split('\n')]: k separators give k+1 pieces, the empty string gives
    one empty piece. *)
Fixpoint split_lf (s : jsstring) : list jsstring :=
  match s with
  | [] => [[]]
  | c :: s' =>
      if (c =? LF)%N then [] :: split_lf s'
      else match split_lf s' with
           | l :: ls => (c :: l) :: ls
           | [] => [[c]]
           end
  end.

(** [s.startsWith(p)]. *)
Fixpoint startsWith (s p : jsstring) : bool :=
  match p, s with
  | [], _ => true
  | _ :: _, [] => false
  | a :: p', b :: s' => (a =? b)%N && startsWith s' p'
  end.

(** [parts.join(sep)] on an array of strings. *)
Fixpoint join (sep : jsstring) (parts : list jsstring) : jsstring :=
  match parts with
  | [] => []
  | [p] => p
  | p :: ps => p ++ sep ++ join sep ps
  end.

(** [array.map((item, index) => f(item, index))], from a starting index. *)
Definition Array_map_from (A B : Type) (f : A -> nat -> B)
    : nat -> list A -> list B :=
  fix go (index : nat) (l : list A) : list B :=
    match l with
    | [] => []
    | item :: l' => f item index :: go (S index) l'
    end.

Definition Array_map (A B : Type) (f : A -> nat -> B) (l : list A) : list B :=
  Array_map_from f 0 l.

(** Decimal numeral of an integer.  This is [Number::toString] on an
    integer-valued number in the safe range (magnitude at most 2^53 - 1),
    where every integer is represented exactly and printed digit for
    digit; beyond that range the runtime rounds and, from 10^21 on, prints
    an exponent, which this numeral does not follow.  Statements about the
    digits printed for a reply carry [is_safe_integer] or [safe_numbers] as
    a hypothesis. *)
Definition Number_toString (n : Z) : jsstring :=
  lit (DecimalString.NilZero.string_of_int (Z.to_int n)).

(** [String(b)] on a boolean. *)
Definition Boolean_toString (b : bool) : jsstring :=
  if b then lit "true" else lit "false".

(** *** JSON.stringify *)

Definition hex_digit (d : N) : N :=
  (if d <? 10 then 48 + d else 87 + d)%N.

(** [UnicodeEscape]: a backslash, [u] and four lower-case hex digits. *)
Definition UnicodeEscape (c : N) : jsstring :=
  [92; 117; hex_digit (c / 4096 mod 16); hex_digit (c / 256 mod 16);
   hex_digit (c / 16 mod 16); hex_digit (c mod 16)]%N.

Definition is_leading_surrogate (c : N) : bool :=
  ((55296 <=? c) && (c <=? 56319))%N.

Definition is_trailing_surrogate (c : N) : bool :=
  ((56320 <=? c) && (c <=? 57343))%N.

(** The characters between the quotes of [QuoteJSONString].  The literals
    below are the two-character escape sequences themselves (a backslash and
    a letter); a surrogate that is not part of a pair is written as an
    escape. *)
Fixpoint quote_body (s : jsstring) : jsstring :=
  match s with
  | [] => []
  | c :: s' =>
      if (c =? 8)%N then lit "\b" ++ quote_body s'
      else if (c =? 9)%N then lit "\t" ++ quote_body s'
      else if (c =? 10)%N then lit "\n" ++ quote_body s'
      else if (c =? 12)%N then lit "\f" ++ quote_body s'
      else if (c =? 13)%N then lit "\r" ++ quote_body s'
      else if (c =? 34)%N then [92; 34]%N ++ quote_body s'
      else if (c =? 92)%N then [92; 92]%N ++ quote_body s'
      else if (c <? 32)%N then UnicodeEscape c ++ quote_body s'
      else if is_leading_surrogate c then
        match s' with
        | d :: s'' =>
            if is_trailing_surrogate d then c :: d :: quote_body s''
            else UnicodeEscape c ++ quote_body s'
        | [] => UnicodeEscape c
        end
      else if is_trailing_surrogate c then UnicodeEscape c ++ quote_body s'
      else c :: quote_body s'
  end.

(** [QuoteJSONString]. *)
Definition QuoteJSONString (s : jsstring) : jsstring :=
  DQUOTE :: quote_body s ++ [DQUOTE].

End JS.

Import JS.

(** ** Reply values

    The backend reply reaches the component as a JSON-shaped value typed
    [any].  A number is integer-valued (a Redis integer reply): the
    statements that say how a number is printed are made for the safe
    integers, of magnitude at most 2^53 - 1, which a number holds exactly;
    numbers with a fraction, NaN and the infinities take the same branches
    of the code and have no representation here.  An object lists its
    properties in its own enumeration order. *)

Inductive value : Type :=
| VNull
| VUndefined
| VBoolean (b : bool)
| VNumber (n : Z)
| VString (s : jsstring)
| VArray (items : list value)
| VObject (props : list (jsstring * value)).

Module JSON.

(** The elements of an array, serialized; an element without a
    serialization is written [null]. *)
Definition array_partial (ser : value -> option jsstring)
    (items : list value) : list jsstring :=
  map (fun x => match ser x with Some s => s | None => lit "null" end) items.

(** The members of an object, in the object's own property order; a
    property whose value has no serialization is left out. *)
Definition object_partial (ser : value -> option jsstring) (colon : jsstring)
    (props : list (jsstring * value)) : list jsstring :=
  flat_map (fun kv =>
              match kv with
              | (k, x) =>
                  match ser x with
                  | Some s => [QuoteJSONString k ++ colon ++ s]
                  | None => []
                  end
              end) props.

(** The closing steps shared by [SerializeJSONObject] and
    [SerializeJSONArray]. *)
Definition wrap (open close gap stepback : jsstring)
    (partial : list jsstring) : jsstring :=
  match partial with
  | [] => open ++ close
  | _ :: _ =>
      match gap with
      | [] => open ++ join (lit ",") partial ++ close
      | _ :: _ =>
          let indent := stepback ++ gap in
          open ++ [LF] ++ indent
            ++ join (lit "," ++ [LF] ++ indent) partial
            ++ [LF] ++ stepback ++ close
      end
  end.

Definition colon (gap : jsstring) : jsstring :=
  match gap with [] => lit ":" | _ :: _ => lit ": " end.

(** [SerializeJSONProperty] on a value already fetched; [None] is
    [undefined]. *)
Fixpoint SerializeJSONProperty (gap indent : jsstring) (v : value)
    {struct v} : option jsstring :=
  match v with
  | VNull => Some (lit "null")
  | VUndefined => None
  | VBoolean b => Some (Boolean_toString b)
  | VNumber n => Some (Number_toString n)
  | VString s => Some (QuoteJSONString s)
  | VArray items =>
      Some (wrap (lit "[") (lit "]") gap indent
              (array_partial (SerializeJSONProperty gap (indent ++ gap)) items))
  | VObject props =>
      Some (wrap (lit "{") (lit "}") gap indent
              (object_partial (SerializeJSONProperty gap (indent ++ gap))
                 (colon gap) props))
  end.

Definition SerializeJSONObject (gap indent : jsstring)
    (props : list (jsstring * value)) : jsstring :=
  wrap (lit "{") (lit "}") gap indent
    (object_partial (SerializeJSONProperty gap (indent ++ gap)) (colon gap) props).

(** [JSON.stringify(v, null, space)] with a numeric [space]. *)
Definition stringify (v : value) (space : nat) : option jsstring :=
  SerializeJSONProperty (repeat 32%N (Nat.min 10 space)) [] v.

End JSON.

(** [String(v)]: the plain string form of a value.  Inside an array [null]
    and [undefined] elements are written as the empty string. *)
Fixpoint ToString (v : value) : jsstring :=
  match v with
  | VNull => lit "null"
  | VUndefined => lit "undefined"
  | VBoolean b => Boolean_toString b
  | VNumber n => Number_toString n
  | VString s => s
  | VArray items =>
      join (lit ",")
        (map (fun x => match x with
                       | VNull | VUndefined => []
                       | _ => ToString x
                       end) items)
  | VObject _ => lit "[object Object]"
  end.

(** ** formatResult *)

(** [`${index + 1}) ${rendered}`]. *)
Definition numbered (index : nat) (rendered : jsstring) : jsstring :=
  Number_toString (Z.of_nat index + 1) ++ lit ") " ++ rendered.

Fixpoint formatResult (result : value) : jsstring :=
  match result with
  | VNull | VUndefined => lit "(nil)"
  | VString s => DQUOTE :: s ++ [DQUOTE]
  | VNumber n => lit "(integer) " ++ Number_toString n
  | VArray items =>
      match items with
      | [] => lit "(empty array)"
      | _ :: _ =>
          join [LF]
            (Array_map (fun item index => numbered index (formatResult item))
               items)
      end
  | VObject props =>
      (* JSON.stringify(result, null, 2) on an object *)
      JSON.SerializeJSONObject (lit "  ") [] props
  | VBoolean _ => ToString result
  end.

(** ** The component: commands, results and the execute handler *)

(** What the backend call resolves to. *)
Record ExecResult : Type := {
  success : bool;
  data : value;
  message : jsstring
}.

(** A value caught by the [catch] clause: its [message] property when it has
    one that is a string, and its [String(e)] form. *)
Record Thrown : Type := {
  thrown_message : option jsstring;
  thrown_string : jsstring
}.

(** How awaiting the backend call completes. *)
Inductive Completion : Type :=
| Resolved (res : ExecResult)
| Rejected (e : Thrown).

(** [interface CommandResult]; an absent [error] is [None]. *)
Record CommandResult : Type := {
  command : jsstring;
  result : value;
  error : option jsstring;
  timestamp : Z
}.

(** [e?.message || String(e)]. *)
Definition caught_message (e : Thrown) : jsstring :=
  match thrown_message e with
  | Some m => if truthy m then m else thrown_string e
  | None => thrown_string e
  end.

(** The entry pushed for one command, in the [try] branch or in the [catch]
    branch. *)
Definition entry (trimmedCmd : jsstring) (c : Completion) (now : Z)
    : CommandResult :=
  match c with
  | Resolved res =>
      {| command := trimmedCmd;
         result := if success res then data res else VNull;
         error := if success res then None else Some (message res);
         timestamp := now |}
  | Rejected e =>
      {| command := trimmedCmd;
         result := VNull;
         error := Some (caught_message e);
         timestamp := now |}
  end.

(** The backend reported a failure: it resolved with [success] false, or
    the call was rejected. *)
Definition failed (c : Completion) : bool :=
  match c with
  | Resolved res => negb (success res)
  | Rejected _ => true
  end.

(** The message of a failure. *)
Definition failure_message (c : Completion) : jsstring :=
  match c with
  | Resolved res => message res
  | Rejected e => caught_message e
  end.

(** The filter of [handleExecute]: the lines of the trimmed editor text that
    are not blank and not comments.  The lines are kept as they are; the loop
    trims each one. *)
Definition keep_line (c : jsstring) : bool :=
  truthy (trim c)
  && negb (startsWith (trim c) (lit "//"))
  && negb (startsWith (trim c) (lit "#")).

Definition commands (cmdToExecute : jsstring) : list jsstring :=
  filter keep_line (split_lf cmdToExecute).

(** The text of the warning shown for an empty input. *)
Definition empty_input_warning : jsstring :=
  [35831; 36755; 20837; 21629; 20196]%N.

(** What the item view shows under a command: the error when [item.error] is
    truthy, the formatted result otherwise. *)
Definition display (item : CommandResult) : jsstring :=
  match error item with
  | Some e => if truthy e then lit "(error) " ++ e else formatResult (result item)
  | None => formatResult (result item)
  end.

Section Component.

(** The connection configuration forwarded to the backend. *)
Variable Config : Type.

(** The effects of the handler, in the order they happen. *)
Inductive event : Type :=
| EvExecute (config : Config) (cmd : jsstring)
| EvNow
| EvWarning (msg : jsstring).

(** The backend call and the clock may answer differently every time: both
    are functions of everything that happened before. *)
Variable RedisExecuteCommand : list event -> Config -> jsstring -> Completion.
Variable Date_now : list event -> Z.

(** The component state ([results], [loading]) and the effects so far. *)
Record Session : Type := {
  results : list CommandResult;
  loading : bool;
  trace : list event
}.

(** The [for (const cmd of commands)] loop. *)
Fixpoint for_commands (config : Config) (cmds : list jsstring)
    (newResults : list CommandResult) (tr : list event)
    : list CommandResult * list event :=
  match cmds with
  | [] => (newResults, tr)
  | cmd :: rest =>
      let trimmedCmd := trim cmd in
      if negb (truthy trimmedCmd) then for_commands config rest newResults tr
      else
        let completion := RedisExecuteCommand tr config trimmedCmd in
        let tr1 := tr ++ [EvExecute config trimmedCmd] in
        let now := Date_now tr1 in
        for_commands config rest
          (newResults ++ [entry trimmedCmd completion now])
          (tr1 ++ [EvNow])
  end.

(** [handleExecute], with the editor text [command] and the result of
    [getConfig()]. *)
Definition handleExecute (config : option Config) (command : jsstring)
    (s : Session) : Session :=
  match config with
  | None => s
  | Some cfg =>
      let cmdToExecute := trim command in
      if negb (truthy cmdToExecute) then
        {| results := results s;
           loading := loading s;
           trace := trace s ++ [EvWarning empty_input_warning] |}
      else
        let '(newResults, tr) :=
          for_commands cfg (commands cmdToExecute) [] (trace s) in
        {| results := newResults ++ results s;
           loading := false;
           trace := tr |}
  end.

(** [handleClear]. *)
Definition handleClear (s : Session) : Session :=
  {| results := [];
     loading := loading s;
     trace := trace s |}.

(** The commands handed to the backend, in call order. *)
Fixpoint executed (tr : list event) : list jsstring :=
  match tr with
  | [] => []
  | EvExecute _ cmd :: tr' => cmd :: executed tr'
  | _ :: tr' => executed tr'
  end.

(** The warnings shown to the user. *)
Fixpoint warnings (tr : list event) : list jsstring :=
  match tr with
  | [] => []
  | EvWarning msg :: tr' => msg :: warnings tr'
  | _ :: tr' => warnings tr'
  end.

(** The effects of running the loop body once for each of [cmds]. *)
Definition effects_of (config : Config) (cmds : list jsstring) : list event :=
  flat_map (fun cmd => [EvExecute config (trim cmd); EvNow]) cmds.

(** The entry recorded for the command at position [i] of a batch started
    after the effects [tr]: the backend is asked after the effects of the
    commands before it, and the clock is read right after the call. *)
Definition outcome_at (config : Config) (tr : list event)
    (cmds : list jsstring) (i : nat) : CommandResult :=
  let trimmedCmd := trim (nth i cmds []) in
  let before := tr ++ effects_of config (firstn i cmds) in
  entry trimmedCmd
    (RedisExecuteCommand before config trimmedCmd)
    (Date_now (before ++ [EvExecute config trimmedCmd])).

(** The same entries, computed front to back. *)
Fixpoint batch_outcomes (config : Config) (tr : list event)
    (cmds : list jsstring) : list CommandResult :=
  match cmds with
  | [] => []
  | cmd :: rest =>
      let trimmedCmd := trim cmd in
      let tr1 := tr ++ [EvExecute config trimmedCmd] in
      entry trimmedCmd (RedisExecuteCommand tr config trimmedCmd) (Date_now tr1)
        :: batch_outcomes config (tr1 ++ [EvNow]) rest
  end.

End Component.

(** ** Definitions used to state the properties *)

(** The splitter as the specification words it: split on line boundaries,
    trim every line, drop a line that is empty after trimming or starts with
    a comment marker, keep the order. *)
Definition dropped (l : jsstring) : bool :=
  negb (truthy l) || startsWith l (lit "//") || startsWith l (lit "#").

Definition Split_lines (ls : list jsstring) : list jsstring :=
  filter (fun l => negb (dropped l)) (map trim ls).

Definition Split_spec (rawText : jsstring) : list jsstring :=
  Split_lines (split_lf rawText).

(** The newline-separated lines of a rendering. *)
Definition lines (s : jsstring) : list jsstring := split_lf s.

(** The renderings of the elements of an array, each behind its 1-based
    index. *)
Definition numbered_items (items : list value) : list jsstring :=
  map (fun p => numbered (fst p) (formatResult (snd p)))
    (combine (seq 0 (List.length items)) items).

(** Leaves of a reply: everything that is not an array. *)
Fixpoint leaf_count (v : value) : nat :=
  match v with
  | VArray items => fold_right (fun x acc => leaf_count x + acc) 0 items
  | _ => 1
  end.

(** Every leaf is a string or a number. *)
Fixpoint text_or_integer_leaves (v : value) : bool :=
  match v with
  | VString _ | VNumber _ => true
  | VArray items => forallb text_or_integer_leaves items
  | _ => false
  end.

(** Every array nested inside [v] (not [v] itself) is non-empty. *)
Definition nonempty_array (v : value) : bool :=
  match v with
  | VArray [] => false
  | _ => true
  end.

Fixpoint nested_nonempty (v : value) : bool :=
  match v with
  | VArray items =>
      forallb (fun x => nonempty_array x && nested_nonempty x) items
  | _ => true
  end.

(** A string without a line feed. *)
Definition no_LF (s : jsstring) : Prop := existsb (N.eqb LF) s = false.

(** No string leaf contains a line feed. *)
Fixpoint single_line_texts (v : value) : bool :=
  match v with
  | VString s => negb (existsb (N.eqb LF) s)
  | VArray items => forallb single_line_texts items
  | _ => true
  end.

(** The conditions under which a rendering has one line per leaf. *)
Definition one_line_per_leaf (v : value) : Prop :=
  text_or_integer_leaves v = true
  /\ nonempty_array v = true
  /\ nested_nonempty v = true
  /\ single_line_texts v = true.

(** A line is blank or a comment. *)
Definition blank_or_comment (l : jsstring) : bool :=
  negb (truthy (trim l))
  || startsWith (trim l) (lit "//")
  || startsWith (trim l) (lit "#").

(** A backend for the examples: [BADCMD] is refused, everything else
    answers 3; the clock counts the effects so far. *)
Definition sample_backend (tr : list (event unit)) (config : unit)
    (cmd : jsstring) : Completion :=
  if startsWith cmd (lit "BADCMD") then
    Resolved {| success := false; data := VNull;
                message := lit "unknown command" |}
  else
    Resolved {| success := true; data := VNumber 3; message := [] |}.

Definition sample_clock (tr : list (event unit)) : Z :=
  Z.of_nat (List.length tr).

Definition empty_session : Session unit :=
  {| results := []; loading := false; trace := [] |}.

(** ** getConfig

    The connection list comes from the store, whose declarations are not
    part of this file: a connection is taken to be an [id] and a [config]
    object, an object being the list of its properties in their own order,
    without repeated keys. *)

Module Store.

Record Connection : Type := {
  id : jsstring;
  config : list (jsstring * value)
}.

End Store.

(** [a === b] on strings. *)
Fixpoint string_eqb (a b : jsstring) : bool :=
  match a, b with
  | [], [] => true
  | x :: a', y :: b' => (x =? y)%N && string_eqb a' b'
  | _, _ => false
  end.

(** [o.k]: the value of the property, [undefined] when there is none. *)
Definition get_prop (k : jsstring) (o : list (jsstring * value)) : value :=
  match find (fun kv => string_eqb (fst kv) k) o with
  | Some kv => snd kv
  | None => VUndefined
  end.

(** Defining property [k] in an object literal: an existing property keeps
    its place and takes the new value, a new one goes to the end. *)
Fixpoint set_prop (k : jsstring) (v : value) (o : list (jsstring * value))
    : list (jsstring * value) :=
  match o with
  | [] => [(k, v)]
  | (k', v') :: o' =>
      if string_eqb k' k then (k', v) :: o' else (k', v') :: set_prop k v o'
  end.

(** [ToBoolean]. *)
Definition ToBoolean (v : value) : bool :=
  match v with
  | VNull | VUndefined => false
  | VBoolean b => b
  | VNumber n => negb (n =? 0)%Z
  | VString s => truthy s
  | VArray _ | VObject _ => true
  end.

(** [a || b]. *)
Definition or_else (a b : value) : value :=
  if ToBoolean a then a else b.

(** [{ host: "", port: 22, user: "", password: "", keyPath: "" }]. *)
Definition default_ssh : value :=
  VObject [(lit "host", VString []); (lit "port", VNumber 22);
           (lit "user", VString []); (lit "password", VString []);
           (lit "keyPath", VString [])].

Section GetConfig.

(** [Number(v)], the numeric conversion of the runtime. *)
Variable Number : value -> value.

(** [connections.find(c => c.id === connectionId)]. *)
Definition connection_of (connections : list Store.Connection)
    (connectionId : jsstring) : option Store.Connection :=
  find (fun c => string_eqb (Store.id c) connectionId) connections.

(** [getConfig]: [None] is [null]. *)
Definition getConfig (connections : list Store.Connection)
    (connectionId : jsstring) (redisDB : Z)
    : option (list (jsstring * value)) :=
  match connection_of connections connectionId with
  | None => None
  | Some connection =>
      let c := Store.config connection in
      Some
        (set_prop (lit "redisDB") (VNumber redisDB)
           (set_prop (lit "ssh") (or_else (get_prop (lit "ssh") c) default_ssh)
              (set_prop (lit "useSSH")
                 (or_else (get_prop (lit "useSSH") c) (VBoolean false))
                 (set_prop (lit "password")
                    (or_else (get_prop (lit "password") c) (VString []))
                    (set_prop (lit "port") (Number (get_prop (lit "port") c))
                       c)))))
  end.

Variable RedisExecuteCommand :
  list (event (list (jsstring * value))) -> list (jsstring * value)
  -> jsstring -> Completion.
Variable Date_now : list (event (list (jsstring * value))) -> Z.

(** [handleExecute] as the component runs it, on the configuration that
    [getConfig] builds. *)
Definition handleExecute_in (connections : list Store.Connection)
    (connectionId : jsstring) (redisDB : Z) (command : jsstring)
    (s : Session (list (jsstring * value)))
    : Session (list (jsstring * value)) :=
  handleExecute RedisExecuteCommand Date_now
    (getConfig connections connectionId redisDB) command s.

End GetConfig.

(** The five properties [getConfig] writes. *)
Definition written_by_getConfig (k : jsstring) : bool :=
  string_eqb k (lit "port") || string_eqb k (lit "password")
  || string_eqb k (lit "useSSH") || string_eqb k (lit "ssh")
  || string_eqb k (lit "redisDB").

(** ** The item view and further notions used below *)

(** The React key of every item of the result list:
    [key={item.timestamp + index}]. *)
Definition item_keys (rs : list CommandResult) : list Z :=
  Array_map (fun item index => (timestamp item + Z.of_nat index)%Z) rs.

(** The number of line feeds in a string. *)
Definition lf_count (s : jsstring) : nat :=
  List.length (filter (N.eqb LF) s).

(** A command fit to be sent: not empty, nothing to trim, on one line, and
    not a comment. *)
Definition clean_command (c : jsstring) : Prop :=
  truthy c = true
  /\ trim c = c
  /\ no_LF c
  /\ startsWith c (lit "//") = false
  /\ startsWith c (lit "#") = false.

(** The kinds of reply [formatResult] tells apart. *)
Inductive kind : Type :=
| KNil | KText | KInteger | KEmptyArray | KArray | KObject | KBoolean.

Definition kind_of (v : value) : kind :=
  match v with
  | VNull | VUndefined => KNil
  | VString _ => KText
  | VNumber _ => KInteger
  | VArray [] => KEmptyArray
  | VArray (_ :: _) => KArray
  | VObject _ => KObject
  | VBoolean _ => KBoolean
  end.

(** Reading the kind of a reply back from the first characters of its
    rendering. *)
Definition kind_of_rendering (s : jsstring) : option kind :=
  match s with
  | 34 :: _ => Some KText
  | 40 :: 110 :: _ => Some KNil
  | 40 :: 105 :: _ => Some KInteger
  | 40 :: 101 :: 109 :: _ => Some KEmptyArray
  | 49 :: 41 :: _ => Some KArray
  | 123 :: _ => Some KObject
  | 116 :: _ | 102 :: _ => Some KBoolean
  | _ => None
  end%N.

(** An ASCII string read back from its code units. *)
Definition unlit (s : jsstring) : String.string :=
  String.string_of_list_ascii (map Ascii.ascii_of_N s).

(** Reading the number back from the rendering of an integer reply. *)
Definition read_integer (s : jsstring) : option Z :=
  if startsWith s (lit "(integer) ") then
    option_map Z.of_int
      (DecimalString.NilZero.int_of_string (unlit (skipn 10 s)))
  else None.

(** Reading the text back from the rendering of a string reply. *)
Definition read_text (s : jsstring) : option jsstring :=
  match s with
  | 34%N :: r =>
      match rev r with
      | 34%N :: t => Some (rev t)
      | _ => None
      end
  | _ => None
  end.

(** The number of lines [JSON.stringify] with a non-empty gap spends on a
    value: one for a scalar or an empty container, otherwise the lines of
    the elements between an opening and a closing line.  An [undefined]
    element of an array is written [null]; an [undefined] property is left
    out. *)
Fixpoint json_lines (v : value) : nat :=
  match v with
  | VArray items =>
      match items with
      | [] => 1
      | _ :: _ => 2 + fold_right (fun x acc => json_lines x + acc) 0 items
      end
  | VObject props =>
      match filter (fun kv => match snd kv with VUndefined => false | _ => true end)
              props with
      | [] => 1
      | _ :: _ =>
          2 + fold_right
                (fun kv acc =>
                   match kv with
                   | (_, x) =>
                       match x with
                       | VUndefined => acc
                       | _ => json_lines x + acc
                       end
                   end) 0 props
      end
  | _ => 1
  end.

(** The number of lines of the rendering of a reply. *)
Fixpoint rendered_lines (v : value) : nat :=
  match v with
  | VString s => S (lf_count s)
  | VArray items =>
      match items with
      | [] => 1
      | _ :: _ => fold_right (fun x acc => rendered_lines x + acc) 0 items
      end
  | VObject _ => json_lines v
  | _ => 1
  end.

(** A code unit that is not a C0 control (U+0000 to U+001F), and a code unit
    that is a line feed or not a C0 control.  DEL and the C1 controls
    (U+007F to U+009F) are not C0 controls. *)
Definition not_C0 (c : N) : Prop := (32 <= c)%N.

Definition line_feed_or_not_C0 (c : N) : Prop := c = LF \/ not_C0 c.

(** ** Safe integers, failures as the view tests them, and a failing backend *)

(** [Number.isSafeInteger]: the integers a number holds exactly and prints
    digit for digit. *)
Definition MAX_SAFE_INTEGER : Z := 2 ^ 53 - 1.

Definition is_safe_integer (n : Z) : bool :=
  (Z.abs n <=? MAX_SAFE_INTEGER)%Z.

(** Every number inside a reply is a safe integer. *)
Fixpoint safe_numbers (v : value) : bool :=
  match v with
  | VNumber n => is_safe_integer n
  | VArray items => forallb safe_numbers items
  | VObject props => forallb (fun kv => safe_numbers (snd kv)) props
  | _ => true
  end.

(** The test the item view makes, [item.error ? ... : ...]: an entry counts
    as a failure when its [error] is a non-empty string. *)
Definition shown_as_failure (item : CommandResult) : bool :=
  match error item with
  | Some e => truthy e
  | None => false
  end.

(** A backend with every way of failing: [BADCMD] is refused with a
    message, [MUTE] is refused with an empty message, [BOOM] is rejected
    with an error that has a message, [CRASH] is rejected with one that has
    none, [HUSH] is rejected with an error whose message is empty;
    everything else answers 3. *)
Definition faulty_backend (tr : list (event unit)) (config : unit)
    (cmd : jsstring) : Completion :=
  if startsWith cmd (lit "BADCMD") then
    Resolved {| success := false; data := VNull;
                message := lit "unknown command" |}
  else if startsWith cmd (lit "MUTE") then
    Resolved {| success := false; data := VNumber 1; message := [] |}
  else if startsWith cmd (lit "BOOM") then
    Rejected {| thrown_message := Some (lit "connection lost");
                thrown_string := lit "Error: connection lost" |}
  else if startsWith cmd (lit "CRASH") then
    Rejected {| thrown_message := None; thrown_string := lit "timeout" |}
  else if startsWith cmd (lit "HUSH") then
    Rejected {| thrown_message := Some []; thrown_string := lit "Error" |}
  else
    Resolved {| success := true; data := VNumber 3; message := [] |}.

(** *** The JSON text of a value, as a layout of lines

    The serialization with two-space indentation, described line by line
    and independently of the indent strings the runtime algorithm threads:
    a scalar is one line; a non-empty container is an opening line, its
    parts one level deeper (every line behind two more spaces) with a comma
    after each part but the last, and a closing line; the parts of an
    object are its properties in their own order, each behind its quoted
    key, a colon and a space, without the properties whose value is
    [undefined]; an [undefined] element of an array is written [null]. *)

Definition indent_lines (ls : list jsstring) : list jsstring :=
  map (fun l => lit "  " ++ l) ls.

Definition prefix_first (p : jsstring) (ls : list jsstring) : list jsstring :=
  match ls with
  | [] => [p]
  | l :: ls' => (p ++ l) :: ls'
  end.

Fixpoint append_last (c : jsstring) (ls : list jsstring) : list jsstring :=
  match ls with
  | [] => [c]
  | [l] => [l ++ c]
  | l :: ls' => l :: append_last c ls'
  end.

Fixpoint with_commas (blocks : list (list jsstring)) : list jsstring :=
  match blocks with
  | [] => []
  | [b] => b
  | b :: bs => append_last (lit ",") b ++ with_commas bs
  end.

Definition container (open close : jsstring) (blocks : list (list jsstring))
    : list jsstring :=
  match blocks with
  | [] => [open ++ close]
  | _ :: _ => [open] ++ indent_lines (with_commas blocks) ++ [close]
  end.

Fixpoint json_block (v : value) : list jsstring :=
  match v with
  | VNull | VUndefined => [lit "null"]
  | VBoolean b => [Boolean_toString b]
  | VNumber n => [Number_toString n]
  | VString s => [QuoteJSONString s]
  | VArray items => container (lit "[") (lit "]") (map json_block items)
  | VObject props =>
      container (lit "{") (lit "}")
        (flat_map (fun kv =>
                     match kv with
                     | (k, x) =>
                         match x with
                         | VUndefined => []
                         | _ => [prefix_first (QuoteJSONString k ++ lit ": ")
                                   (json_block x)]
                         end
                     end) props)
  end.

Definition json_text (v : value) : jsstring := join [LF] (json_block v).

(** A block placed at an indentation: its first line follows what is already
    on the line, every other line starts behind [indent]. *)
Definition placed (indent : jsstring) (block : list jsstring) : list jsstring :=
  match block with
  | [] => []
  | l :: ls => l :: map (fun x => indent ++ x) ls
  end.

(** ** formatResult with its error path

    [formatResult] takes a value typed [any].  A reply that crossed the JSON
    bridge is a [value]; the wider type below adds the bigint and symbol
    values, which JSON marshaling never produces, because [JSON.stringify]
    throws a [TypeError] on a bigint.  Function values are left out: a
    function in a [toJSON] property would be called by [JSON.stringify]. *)

Inductive any_value : Type :=
| ANull
| AUndefined
| ABoolean (b : bool)
| ANumber (n : Z)
| AString (s : jsstring)
| ABigInt (z : Z)
| ASymbol (description : option jsstring)
| AArray (items : list any_value)
| AObject (props : list (jsstring * any_value)).

(** The completion of a call: a returned value or a thrown error, given by
    the name of its constructor. *)
Inductive outcome (A : Type) : Type :=
| Returned (a : A)
| Threw (error : jsstring).

Arguments Returned {A} a.
Arguments Threw {A} error.

(** Running [f] on the elements of a list in order; the first error ends
    the run. *)
Definition collect (A B : Type) (f : A -> outcome B) : list A -> outcome (list B) :=
  fix go (l : list A) : outcome (list B) :=
    match l with
    | [] => Returned []
    | x :: l' =>
        match f x with
        | Threw e => Threw e
        | Returned y =>
            match go l' with
            | Threw e => Threw e
            | Returned ys => Returned (y :: ys)
            end
        end
    end.

Module AnyJSON.

(** The members of an object from its keys and the serializations of its
    values. *)
Definition object_partial (colon : jsstring) (keys : list jsstring)
    (sers : list (option jsstring)) : list jsstring :=
  flat_map (fun ks =>
              match ks with
              | (k, Some s) => [QuoteJSONString k ++ colon ++ s]
              | (_, None) => []
              end) (combine keys sers).

Definition array_partial (sers : list (option jsstring)) : list jsstring :=
  map (fun o => match o with Some s => s | None => lit "null" end) sers.

(** [SerializeJSONProperty]: a bigint throws, [undefined] and a symbol have
    no serialization. *)
Fixpoint SerializeJSONProperty (gap indent : jsstring) (v : any_value)
    {struct v} : outcome (option jsstring) :=
  match v with
  | ANull => Returned (Some (lit "null"))
  | AUndefined | ASymbol _ => Returned None
  | ABoolean b => Returned (Some (Boolean_toString b))
  | ANumber n => Returned (Some (Number_toString n))
  | AString s => Returned (Some (QuoteJSONString s))
  | ABigInt _ => Threw (lit "TypeError")
  | AArray items =>
      match collect (SerializeJSONProperty gap (indent ++ gap)) items with
      | Threw e => Threw e
      | Returned sers =>
          Returned (Some (JSON.wrap (lit "[") (lit "]") gap indent
                      (array_partial sers)))
      end
  | AObject props =>
      match collect (fun kv => SerializeJSONProperty gap (indent ++ gap) (snd kv))
              props with
      | Threw e => Threw e
      | Returned sers =>
          Returned (Some (JSON.wrap (lit "{") (lit "}") gap indent
                      (object_partial (JSON.colon gap) (map fst props) sers)))
      end
  end.

(** [JSON.stringify(o, null, 2)] on an object [o] is these steps of
    [SerializeJSONObject]; it returns a string or throws. *)
Definition SerializeJSONObject (gap indent : jsstring)
    (props : list (jsstring * any_value)) : outcome jsstring :=
  match collect (fun kv => SerializeJSONProperty gap (indent ++ gap) (snd kv))
          props with
  | Threw e => Threw e
  | Returned sers =>
      Returned (JSON.wrap (lit "{") (lit "}") gap indent
                  (object_partial (JSON.colon gap) (map fst props) sers))
  end.

End AnyJSON.

(** [String(v)] on the values that reach the last line of [formatResult]
    (and on the others, for completeness); a bigint prints all its digits. *)
Fixpoint String_any (v : any_value) : jsstring :=
  match v with
  | ANull => lit "null"
  | AUndefined => lit "undefined"
  | ABoolean b => Boolean_toString b
  | ANumber n => Number_toString n
  | AString s => s
  | ABigInt z => lit (DecimalString.NilZero.string_of_int (Z.to_int z))
  | ASymbol None => lit "Symbol()"
  | ASymbol (Some d) => lit "Symbol(" ++ d ++ lit ")"
  | AArray items =>
      join (lit ",")
        (map (fun x => match x with
                       | ANull | AUndefined => []
                       | _ => String_any x
                       end) items)
  | AObject _ => lit "[object Object]"
  end.

(** [formatResult], line by line, with what each line can throw. *)
Fixpoint formatResult_any (result : any_value) : outcome jsstring :=
  match result with
  | ANull | AUndefined => Returned (lit "(nil)")
  | AString s => Returned (DQUOTE :: s ++ [DQUOTE])
  | ANumber n => Returned (lit "(integer) " ++ Number_toString n)
  | AArray items =>
      match items with
      | [] => Returned (lit "(empty array)")
      | _ :: _ =>
          match collect formatResult_any items with
          | Threw e => Threw e
          | Returned rendered =>
              Returned (join [LF]
                    (Array_map (fun r index => numbered index r) rendered))
          end
      end
  | AObject props =>
      (* JSON.stringify(result, null, 2) on an object *)
      AnyJSON.SerializeJSONObject (lit "  ") [] props
  | ABoolean _ | ABigInt _ | ASymbol _ => Returned (String_any result)
  end.

(** A JSON-shaped reply as a value of the wider type. *)
Fixpoint as_any (v : value) : any_value :=
  match v with
  | VNull => ANull
  | VUndefined => AUndefined
  | VBoolean b => ABoolean b
  | VNumber n => ANumber n
  | VString s => AString s
  | VArray items => AArray (map as_any items)
  | VObject props => AObject (map (fun kv => (fst kv, as_any (snd kv))) props)
  end.

(** The tests [formatResult] makes before its last line: [null] or
    [undefined], [typeof] string or number, [Array.isArray], [typeof]
    object. *)
Definition matches_a_test (v : any_value) : bool :=
  match v with
  | ANull | AUndefined | AString _ | ANumber _ | AArray _ | AObject _ => true
  | ABoolean _ | ABigInt _ | ASymbol _ => false
  end.

(** * Properties *)

(** ** Lines and trimming *)

Lemma split_lf_cons (s : jsstring) :
  exists l ls, split_lf s = l :: ls.
Proof.
  induction s as [|c s [l [ls IH]]]; simpl.
  - eauto.
  - destruct (N.eqb c LF); [eauto|]. rewrite IH. eauto.
Qed.

Lemma split_lf_step (c : N) (s : jsstring) :
  N.eqb c LF = false ->
  split_lf (c :: s) = (c :: hd [] (split_lf s)) :: tl (split_lf s).
Proof.
  intros Hc. simpl. rewrite Hc.
  destruct (split_lf_cons s) as [l [ls E]]. now rewrite E.
Qed.

Lemma trimEnd_step (c : N) (s : jsstring) :
  trimEnd (c :: s) =
  match trimEnd s with
  | [] => if is_white_space c then [] else [c]
  | t => c :: t
  end.
Proof. reflexivity. Qed.

Lemma trimStart_app (a b : jsstring) :
  trimStart (a ++ b)
  = match trimStart a with
    | [] => trimStart b
    | t => t ++ b
    end.
Proof.
  induction a as [|c a IH]; simpl; [reflexivity|].
  destruct (is_white_space c); [exact IH | reflexivity].
Qed.

(** [trimEnd] is [trimStart] seen from the other end. *)
Lemma trimEnd_rev (s : jsstring) :
  trimEnd s = rev (trimStart (rev s)).
Proof.
  induction s as [|c s IH]; [reflexivity|].
  rewrite trimEnd_step. cbn [rev]. rewrite trimStart_app.
  assert (E : trimStart (rev s) = rev (trimEnd s))
    by (now rewrite IH, rev_involutive).
  rewrite E. destruct (trimEnd s) as [|d t].
  - simpl. now destruct (is_white_space c).
  - destruct (rev (d :: t)) eqn:Er.
    + apply (f_equal (@List.length N)) in Er.
      rewrite length_rev in Er. discriminate.
    + rewrite <- Er, rev_app_distr, rev_involutive. reflexivity.
Qed.

(** A leading white-space character does not change what [trim] returns. *)
Lemma trim_skip (c : N) (l : jsstring) :
  is_white_space c = true -> trim (c :: l) = trim l.
Proof.
  intros Hc. unfold trim. rewrite trimEnd_step.
  destruct (trimEnd l) as [|d t].
  - now rewrite Hc.
  - simpl. now rewrite Hc.
Qed.

(** [trim] only looks at its argument through [trimEnd]. *)
Lemma trim_of_trimEnd (l l' : jsstring) :
  trimEnd l = trimEnd l' -> trim l = trim l'.
Proof. unfold trim. now intros ->. Qed.

Lemma trimEnd_cons_congr (c : N) (l l' : jsstring) :
  trimEnd l = trimEnd l' -> trimEnd (c :: l) = trimEnd (c :: l').
Proof. intros H. now rewrite !trimEnd_step, H. Qed.

Lemma LF_is_white_space (c : N) :
  N.eqb c LF = true -> is_white_space c = true.
Proof. intros H. apply N.eqb_eq in H. now subst. Qed.

(** The splitter of the specification depends on the head line only through
    its trimmed form. *)
Lemma Split_lines_head (l l' : jsstring) (ls ls' : list jsstring) :
  trim l = trim l' ->
  Split_lines ls = Split_lines ls' ->
  Split_lines (l :: ls) = Split_lines (l' :: ls').
Proof.
  unfold Split_lines. intros Hl Hls. simpl. now rewrite Hl, Hls.
Qed.

Lemma Split_lines_blank (l : jsstring) (ls : list jsstring) :
  trim l = [] -> Split_lines (l :: ls) = Split_lines ls.
Proof. unfold Split_lines. intros Hl. simpl. now rewrite Hl. Qed.

Lemma Split_spec_skip (c : N) (s : jsstring) :
  is_white_space c = true -> Split_spec (c :: s) = Split_spec s.
Proof.
  intros Hc. unfold Split_spec.
  destruct (N.eqb c LF) eqn:E.
  - simpl. rewrite E. now apply Split_lines_blank.
  - rewrite split_lf_step by assumption.
    destruct (split_lf_cons s) as [l [ls Es]]. rewrite Es. simpl hd. simpl tl.
    apply Split_lines_head; [now apply trim_skip | reflexivity].
Qed.

Lemma Split_spec_trimStart (s : jsstring) :
  Split_spec (trimStart s) = Split_spec s.
Proof.
  induction s as [|c s IH]; simpl; [reflexivity|].
  destruct (is_white_space c) eqn:Hc; [|reflexivity].
  now rewrite IH, Split_spec_skip.
Qed.

(** Removing trailing white space keeps the trimmed-at-the-end form of the
    first line and the retained lines after it. *)
Lemma trimEnd_lines (s : jsstring) :
  trimEnd (hd [] (split_lf (trimEnd s))) = trimEnd (hd [] (split_lf s))
  /\ Split_lines (tl (split_lf (trimEnd s))) = Split_lines (tl (split_lf s)).
Proof.
  induction s as [|c s [IHh IHt]]; [now split|].
  rewrite trimEnd_step.
  destruct (N.eqb c LF) eqn:E.
  - (* a line feed: the first line is empty *)
    pose proof (LF_is_white_space _ E) as Hc.
    assert (Hs : split_lf (c :: s) = [] :: split_lf s) by (simpl; now rewrite E).
    rewrite Hs. cbn [hd tl].
    destruct (split_lf_cons s) as [l [ls Es]].
    destruct (trimEnd s) as [|d t] eqn:Et.
    + rewrite Hc. simpl. split; [reflexivity|].
      rewrite Es in *. cbn [hd tl] in IHh, IHt.
      rewrite Split_lines_blank; [now rewrite <- IHt|].
      unfold trim. now rewrite <- IHh.
    + assert (Hs' : split_lf (c :: d :: t) = [] :: split_lf (d :: t))
        by (simpl; now rewrite E).
      rewrite Hs'. cbn [hd tl]. split; [reflexivity|].
      destruct (split_lf_cons (d :: t)) as [l' [ls' Es']].
      rewrite Es, Es' in *. cbn [hd tl] in IHh, IHt.
      apply Split_lines_head; [now apply trim_of_trimEnd | assumption].
  - rewrite (@split_lf_step c s E).
    destruct (split_lf_cons s) as [l [ls Es]].
    destruct (trimEnd s) as [|d t] eqn:Et.
    + rewrite Es in *. cbn [hd tl split_lf] in IHh, IHt. cbn [hd tl].
      destruct (is_white_space c) eqn:Hc.
      * cbn [hd tl split_lf]. rewrite (trimEnd_step c l), <- IHh, Hc. now split.
      * rewrite (@split_lf_step c [] E). cbn [hd tl split_lf].
        rewrite (trimEnd_step c l), (trimEnd_step c []), <- IHh. now split.
    + rewrite (@split_lf_step c (d :: t) E).
      destruct (split_lf_cons (d :: t)) as [l' [ls' Es']].
      rewrite Es, Es' in *. cbn [hd tl] in IHh, IHt. cbn [hd tl].
      split; [now apply trimEnd_cons_congr | assumption].
Qed.

Lemma Split_spec_trimEnd (s : jsstring) :
  Split_spec (trimEnd s) = Split_spec s.
Proof.
  unfold Split_spec.
  destruct (trimEnd_lines s) as [Hh Ht].
  destruct (split_lf_cons s) as [l [ls Es]].
  destruct (split_lf_cons (trimEnd s)) as [l' [ls' Es']].
  rewrite Es, Es' in *. cbn [hd tl] in Hh, Ht.
  apply Split_lines_head; [now apply trim_of_trimEnd | assumption].
Qed.

(** Trimming the whole text first, as the handler does, does not change the
    retained lines. *)
Lemma Split_spec_trim (s : jsstring) :
  Split_spec (trim s) = Split_spec s.
Proof.
  unfold trim. now rewrite Split_spec_trimStart, Split_spec_trimEnd.
Qed.


(** ** The filter and the loop of [handleExecute] *)

Lemma keep_line_dropped (c : jsstring) :
  keep_line c = negb (dropped (trim c)).
Proof.
  unfold keep_line, dropped.
  destruct (truthy (trim c)), (startsWith (trim c) (lit "//")),
    (startsWith (trim c) (lit "#")); reflexivity.
Qed.

Lemma keep_line_truthy (c : jsstring) :
  keep_line c = true -> truthy (trim c) = true.
Proof.
  unfold keep_line. intros H.
  apply andb_prop in H as [H _]. now apply andb_prop in H as [H _].
Qed.

(** Filtering the raw lines and trimming afterwards, as the code does, is
    trimming every line and filtering afterwards. *)
Lemma trim_filter_lines (ls : list jsstring) :
  map trim (filter keep_line ls) = Split_lines ls.
Proof.
  unfold Split_lines.
  induction ls as [|l ls IH]; simpl; [reflexivity|].
  rewrite keep_line_dropped.
  destruct (dropped (trim l)); simpl; now rewrite IH.
Qed.

Lemma commands_Split_spec (command : jsstring) :
  map trim (commands (trim command)) = Split_spec command.
Proof.
  unfold commands. now rewrite trim_filter_lines, <- Split_spec_trim.
Qed.

Lemma commands_nonblank (s : jsstring) :
  Forall (fun c => truthy (trim c) = true) (commands s).
Proof.
  unfold commands. apply Forall_forall. intros c Hc.
  apply filter_In in Hc as [_ Hc]. now apply keep_line_truthy.
Qed.

Lemma blank_or_comment_dropped (l : jsstring) :
  blank_or_comment l = dropped (trim l).
Proof. reflexivity. Qed.

(** A text whose lines are all blank or comments has no retained line. *)
Lemma Split_spec_all_dropped (s : jsstring) :
  forallb blank_or_comment (split_lf s) = true -> Split_spec s = [].
Proof.
  unfold Split_spec, Split_lines.
  induction (split_lf s) as [|l ls IH]; simpl; [reflexivity|].
  intros H. apply andb_prop in H as [Hl Hls].
  rewrite blank_or_comment_dropped in Hl. rewrite Hl. simpl. now apply IH.
Qed.

Section Loop.

Variable Config : Type.
Variable RedisExecuteCommand : list (event Config) -> Config -> jsstring -> Completion.
Variable Date_now : list (event Config) -> Z.

Local Abbreviation run := (for_commands RedisExecuteCommand Date_now).
Local Abbreviation outcomes := (batch_outcomes RedisExecuteCommand Date_now).

(** On commands that are not blank the loop appends one entry per command
    and performs the effects of one body per command. *)
Lemma for_commands_batch (config : Config) (cmds : list jsstring) :
  Forall (fun c => truthy (trim c) = true) cmds ->
  forall newResults tr,
    run config cmds newResults tr
    = (newResults ++ outcomes config tr cmds, tr ++ effects_of config cmds).
Proof.
  induction 1 as [|cmd rest Hcmd _ IH]; intros newResults tr; simpl.
  - now rewrite !app_nil_r.
  - rewrite Hcmd. simpl. rewrite IH.
    now rewrite <- !app_assoc.
Qed.

Lemma batch_outcomes_length (config : Config) (cmds : list jsstring) :
  forall tr, List.length (outcomes config tr cmds) = List.length cmds.
Proof.
  induction cmds as [|cmd rest IH]; intros tr; simpl; [reflexivity|].
  now rewrite IH.
Qed.

Lemma entry_command (t : jsstring) (c : Completion) (now : Z) :
  command (entry t c now) = t.
Proof. now destruct c. Qed.

Lemma entry_timestamp (t : jsstring) (c : Completion) (now : Z) :
  timestamp (entry t c now) = now.
Proof. now destruct c. Qed.

Lemma entry_error (t : jsstring) (c : Completion) (now : Z) :
  error (entry t c now) = if failed c then Some (failure_message c) else None.
Proof. destruct c as [res|e]; simpl; [now destruct (success res)|reflexivity]. Qed.

Lemma entry_result (t : jsstring) (c : Completion) (now : Z) :
  result (entry t c now)
  = match c with
    | Resolved res => if success res then data res else VNull
    | Rejected _ => VNull
    end.
Proof. now destruct c. Qed.

Lemma batch_outcomes_command (config : Config) (cmds : list jsstring) :
  forall tr, map command (outcomes config tr cmds) = map trim cmds.
Proof.
  induction cmds as [|cmd rest IH]; intros tr; simpl; [reflexivity|].
  now rewrite entry_command, IH.
Qed.

Lemma batch_outcomes_nth (config : Config) (cmds : list jsstring) :
  forall tr i d, (i < List.length cmds)%nat ->
    nth i (outcomes config tr cmds) d
    = outcome_at RedisExecuteCommand Date_now config tr cmds i.
Proof.
  induction cmds as [|cmd rest IH]; intros tr i d Hi; simpl in Hi; [lia|].
  destruct i as [|i].
  - unfold outcome_at. simpl. now rewrite !app_nil_r.
  - simpl. rewrite IH by lia.
    unfold outcome_at. simpl. now rewrite <- !app_assoc.
Qed.

Lemma executed_app (tr tr' : list (event Config)) :
  executed (tr ++ tr') = executed tr ++ executed tr'.
Proof.
  induction tr as [|e tr IH]; simpl; [reflexivity|].
  destruct e; simpl; now rewrite IH.
Qed.

Lemma warnings_app (tr tr' : list (event Config)) :
  warnings (tr ++ tr') = warnings tr ++ warnings tr'.
Proof.
  induction tr as [|e tr IH]; simpl; [reflexivity|].
  destruct e; simpl; now rewrite IH.
Qed.

Lemma executed_effects_of (config : Config) (cmds : list jsstring) :
  executed (effects_of config cmds) = map trim cmds.
Proof.
  induction cmds as [|cmd rest IH]; simpl; [reflexivity|]. now rewrite IH.
Qed.

Lemma warnings_effects_of (config : Config) (cmds : list jsstring) :
  warnings (effects_of config cmds) = [].
Proof. induction cmds as [|cmd rest IH]; simpl; [reflexivity|]. exact IH. Qed.

(** Every timestamp of a batch is a reading of the clock after the effects
    the batch started from. *)
Lemma batch_outcomes_timestamp (config : Config) (cmds : list jsstring) :
  forall tr o, In o (outcomes config tr cmds) ->
    exists more, timestamp o = Date_now (tr ++ more).
Proof.
  induction cmds as [|cmd rest IH]; intros tr o Ho; simpl in Ho; [easy|].
  destruct Ho as [<-|Ho].
  - rewrite entry_timestamp. eauto.
  - apply IH in Ho as [more Ho]. rewrite <- !app_assoc in Ho. eauto.
Qed.

(** What [handleExecute] does when a connection exists, in one equation. *)
Lemma handleExecute_batch (config : Config) (text : jsstring)
    (s : Session Config) :
  truthy (trim text) = true ->
  handleExecute RedisExecuteCommand Date_now (Some config) text s
  = {| results := outcomes config (trace s) (commands (trim text)) ++ results s;
       loading := false;
       trace := trace s ++ effects_of config (commands (trim text)) |}.
Proof.
  intros Ht. unfold handleExecute. rewrite Ht. simpl.
  pose proof (for_commands_batch config (commands_nonblank (trim text)) [] (trace s)) as E.
  now rewrite E.
Qed.

End Loop.

(** ** The batch executor *)

Section Batch.

Variable Config : Type.
Variable RedisExecuteCommand : list (event Config) -> Config -> jsstring -> Completion.
Variable Date_now : list (event Config) -> Z.

Local Abbreviation run := (for_commands RedisExecuteCommand Date_now).
Local Abbreviation submit := (handleExecute RedisExecuteCommand Date_now).
Local Abbreviation outcomes := (batch_outcomes RedisExecuteCommand Date_now).

(** Blank commands are skipped by the [continue] of the loop. *)
Lemma for_commands_filter (config : Config) (cmds : list jsstring) :
  forall newResults tr,
    run config cmds newResults tr
    = run config (filter (fun c => truthy (trim c)) cmds) newResults tr.
Proof.
  induction cmds as [|cmd rest IH]; intros newResults tr; [reflexivity|].
  simpl. destruct (truthy (trim cmd)) eqn:E; simpl.
  - rewrite E. simpl. apply IH.
  - apply IH.
Qed.

Lemma filter_nonblank (cmds : list jsstring) :
  Forall (fun c => truthy (trim c) = true)
    (filter (fun c => truthy (trim c)) cmds).
Proof.
  apply Forall_forall. intros c Hc. now apply filter_In in Hc as [_ Hc].
Qed.

Lemma handleExecute_results (config : Config) (text : jsstring)
    (s : Session Config) :
  results (submit (Some config) text s)
  = outcomes config (trace s) (commands (trim text)) ++ results s.
Proof.
  destruct (truthy (trim text)) eqn:Ht.
  - now rewrite handleExecute_batch.
  - unfold handleExecute. rewrite Ht. simpl.
    destruct (trim text); [reflexivity|discriminate].
Qed.

Lemma handleExecute_executed (config : Config) (text : jsstring)
    (s : Session Config) :
  executed (trace (submit (Some config) text s))
  = executed (trace s) ++ Split_spec text.
Proof.
  destruct (truthy (trim text)) eqn:Ht.
  - rewrite handleExecute_batch by assumption. simpl.
    now rewrite executed_app, executed_effects_of, commands_Split_spec.
  - unfold handleExecute. rewrite Ht. simpl.
    rewrite executed_app, <- commands_Split_spec. simpl.
    destruct (trim text); [reflexivity|discriminate].
Qed.

(** C1 (as amended).  Failure isolation.  For every sequence of N commands
    (none of them blank) and every behaviour of the backend call, the loop
    calls the backend once per command, in input order, each call coming
    after the effects of all the commands before it whatever their outcome;
    it returns N entries in submission order, entry i carrying the trimmed
    command i.  Entry i records an error exactly when the backend failed on
    command i: the message of the failure result when the call resolved
    with [success] false, and for a rejected call the message of the thrown
    value when that is a non-empty string, its string form otherwise.  The
    entry counts as a failure, as the view tests it, exactly when the
    recorded message is non-empty. *)
Theorem batch_failure_isolation (config : Config) (cmds : list jsstring)
    (tr : list (event Config)) :
  Forall (fun c => truthy (trim c) = true) cmds ->
  let out := run config cmds [] tr in
  snd out = tr ++ effects_of config cmds
  /\ executed (snd out) = executed tr ++ map trim cmds
  /\ List.length (fst out) = List.length cmds
  /\ map command (fst out) = map trim cmds
  /\ forall i, (i < List.length cmds)%nat ->
       let trimmedCmd := trim (nth i cmds []) in
       let before := tr ++ effects_of config (firstn i cmds) in
       let answer := RedisExecuteCommand before config trimmedCmd in
       exists o,
         nth_error (fst out) i = Some o
         /\ command o = trimmedCmd
         /\ match answer with
            | Resolved res =>
                if success res
                then error o = None
                     /\ result o = data res
                     /\ shown_as_failure o = false
                else error o = Some (message res)
                     /\ result o = VNull
                     /\ shown_as_failure o = truthy (message res)
            | Rejected e =>
                result o = VNull
                /\ match thrown_message e with
                   | Some (c :: m) =>
                       error o = Some (c :: m)
                       /\ shown_as_failure o = true
                   | _ =>
                       error o = Some (thrown_string e)
                       /\ shown_as_failure o = truthy (thrown_string e)
                   end
            end.
Proof.
  intros Hcmds out. subst out.
  rewrite (for_commands_batch RedisExecuteCommand Date_now config Hcmds [] tr).
  cbn [fst snd app].
  split; [reflexivity|]. split; [|split; [|split]].
  - now rewrite executed_app, executed_effects_of.
  - apply batch_outcomes_length.
  - apply batch_outcomes_command.
  - intros i Hi.
    pose proof (batch_outcomes_length RedisExecuteCommand Date_now config cmds tr) as Hlen.
    destruct (nth_error (batch_outcomes RedisExecuteCommand Date_now config tr cmds) i)
      as [o|] eqn:Ho.
    + exists o. split; [reflexivity|].
      apply (nth_error_nth _ _ o) in Ho.
      rewrite batch_outcomes_nth in Ho by assumption. subst o.
      unfold outcome_at. rewrite entry_command. split; [reflexivity|].
      destruct (RedisExecuteCommand (tr ++ effects_of config (firstn i cmds))
                  config (trim (nth i cmds []))) as [res|e];
        unfold shown_as_failure; cbn [entry error result].
      * destruct (success res); repeat split; reflexivity.
      * split; [reflexivity|]. unfold caught_message.
        destruct (thrown_message e) as [[|c m]|]; split; reflexivity.
    + apply nth_error_None in Ho. lia.
Qed.

(** C2 (as amended).  For every submission whose lines are all blank or
    comments nothing is executed and the result list is left as it was; the
    warning is shown exactly when a connection exists and the whole text is
    empty after trimming. *)
Theorem empty_batch_runs_nothing (config : option Config) (text : jsstring)
    (s : Session Config) :
  forallb blank_or_comment (split_lf text) = true ->
  let s' := submit config text s in
  executed (trace s') = executed (trace s)
  /\ results s' = results s
  /\ warnings (trace s')
     = warnings (trace s)
       ++ match config with
          | Some _ => if truthy (trim text) then [] else [empty_input_warning]
          | None => []
          end.
Proof.
  intros Hall s'. subst s'.
  pose proof (Split_spec_all_dropped text Hall) as Hnone.
  destruct config as [cfg|].
  - assert (Hc : commands (trim text) = []).
    { pose proof (commands_Split_spec text) as E. rewrite Hnone in E.
      now apply map_eq_nil in E. }
    repeat split.
    + now rewrite handleExecute_executed, Hnone, app_nil_r.
    + now rewrite handleExecute_results, Hc.
    + destruct (truthy (trim text)) eqn:Ht.
      * rewrite handleExecute_batch by assumption. simpl.
        rewrite Hc. simpl. now rewrite !app_nil_r.
      * unfold handleExecute. rewrite Ht. simpl.
        now rewrite warnings_app.
  - simpl. now rewrite app_nil_r.
Qed.

(** C3.  The commands the handler runs are the lines of the text, trimmed,
    without the lines that are empty after trimming or begin with [//] or
    [#], in their original order: the code's trim-filter-trim agrees with
    the splitter as the specification words it, both as the list of calls
    made and as the commands recorded. *)
Theorem split_commands_as_specified :
  (forall text, map trim (commands (trim text)) = Split_spec text)
  /\ (forall (config : Config) text (s : Session Config),
        executed (trace (submit (Some config) text s))
        = executed (trace s) ++ Split_spec text
        /\ map command (results (submit (Some config) text s))
           = Split_spec text ++ map command (results s))
  /\ Split_spec (lit "GET foo" ++ [LF] ++ lit "# comment" ++ [LF] ++ lit "DBSIZE")
     = [lit "GET foo"; lit "DBSIZE"].
Proof.
  split; [exact commands_Split_spec|]. split; [|reflexivity].
  intros config text s. split.
  - apply handleExecute_executed.
  - rewrite handleExecute_results, map_app. f_equal.
    now rewrite batch_outcomes_command, commands_Split_spec.
Qed.

(** C8.  The result list is newest batch first: after submitting [A] and
    then [B] it holds the entries of [B] in submission order, then those of
    [A] in submission order, then the entries that were there before,
    untouched; clearing leaves no entry at all. *)
Theorem history_newest_batch_first (configA configB : Config)
    (A B : jsstring) (s : Session Config) :
  let s1 := submit (Some configA) A s in
  let s2 := submit (Some configB) B s1 in
  let outA := outcomes configA (trace s) (commands (trim A)) in
  let outB := outcomes configB (trace s1) (commands (trim B)) in
  results s1 = outA ++ results s
  /\ results s2 = outB ++ outA ++ results s
  /\ map command outA = Split_spec A
  /\ map command outB = Split_spec B
  /\ results (handleClear s2) = []
  /\ results (handleClear s) = [].
Proof.
  intros s1 s2 outA outB. subst s1 s2 outA outB.
  rewrite !handleExecute_results.
  rewrite !batch_outcomes_command, !commands_Split_spec.
  repeat split; reflexivity.
Qed.

(** C9.  Every entry of a batch is stamped with a reading of the clock taken
    during the batch, and when the clock never goes back the timestamps of
    the batch are non-decreasing in submission order. *)
Theorem batch_timestamps_monotone (config : Config) (cmds : list jsstring)
    (tr : list (event Config)) :
  (forall t more, (Date_now t <= Date_now (t ++ more))%Z) ->
  let out := fst (run config cmds [] tr) in
  (forall o, In o out -> exists more, timestamp o = Date_now (tr ++ more))
  /\ StronglySorted Z.le (map timestamp out).
Proof.
  intros Hmono out. subst out.
  rewrite (for_commands_filter config cmds [] tr).
  rewrite (for_commands_batch RedisExecuteCommand Date_now config
             (filter_nonblank cmds) [] tr).
  cbn [fst app]. split; [apply batch_outcomes_timestamp|].
  generalize (filter (fun c => truthy (trim c)) cmds) as l. clear cmds.
  intros l. revert tr.
  induction l as [|cmd rest IH]; intros tr; simpl; constructor.
  - apply IH.
  - rewrite entry_timestamp. apply Forall_forall. intros z Hz.
    apply in_map_iff in Hz as [o [<- Ho]].
    apply batch_outcomes_timestamp in Ho as [more ->].
    rewrite <- app_assoc. apply Hmono.
Qed.

End Batch.

(** ** The reply formatter *)

(** Induction on a reply that reaches the elements of arrays and the values
    of object properties. *)
Lemma value_nested_ind (P : value -> Prop) :
  P VNull -> P VUndefined ->
  (forall b, P (VBoolean b)) ->
  (forall n, P (VNumber n)) ->
  (forall s, P (VString s)) ->
  (forall items, Forall P items -> P (VArray items)) ->
  (forall props, Forall (fun kv => P (snd kv)) props -> P (VObject props)) ->
  forall v, P v.
Proof.
  intros Hnull Hundef Hbool Hnum Hstr Harr Hobj.
  fix IH 1. intros [| |b|n|s|items|props].
  - exact Hnull.
  - exact Hundef.
  - apply Hbool.
  - apply Hnum.
  - apply Hstr.
  - apply Harr. induction items as [|x items IHitems]; constructor.
    + apply IH.
    + exact IHitems.
  - apply Hobj. induction props as [|[k x] props IHprops]; constructor.
    + apply IH.
    + exact IHprops.
Qed.

Lemma Array_map_from_combine (A B : Type) (f : A -> nat -> B) (l : list A) :
  forall k,
    Array_map_from f k l
    = map (fun p => f (snd p) (fst p)) (combine (seq k (List.length l)) l).
Proof.
  induction l as [|x l IH]; intros k; simpl; [reflexivity|]. now rewrite IH.
Qed.

Lemma formatResult_array (item : value) (items : list value) :
  formatResult (VArray (item :: items))
  = join [LF] (numbered_items (item :: items)).
Proof.
  unfold numbered_items. cbn [formatResult]. unfold Array_map.
  now rewrite Array_map_from_combine.
Qed.

Lemma numbered_items_from (items : list value) :
  numbered_items items
  = Array_map_from (fun item index => numbered index (formatResult item)) 0 items.
Proof. unfold numbered_items. now rewrite Array_map_from_combine. Qed.

Lemma Array_map_from_nth_error (A B : Type) (f : A -> nat -> B) (l : list A) :
  forall k i,
    nth_error (Array_map_from f k l) i
    = option_map (fun x => f x (k + i)%nat) (nth_error l i).
Proof.
  induction l as [|x l IH]; intros k [|i]; simpl; try reflexivity.
  - now rewrite Nat.add_0_r.
  - rewrite IH. now replace (S k + i)%nat with (k + S i)%nat by lia.
Qed.

Lemma Array_map_from_length (A B : Type) (f : A -> nat -> B) (l : list A) :
  forall k, List.length (Array_map_from f k l) = List.length l.
Proof. induction l as [|x l IH]; intros k; simpl; [reflexivity|]. now rewrite IH. Qed.

(** *** Lines of a rendering *)

Lemma lines_single (s : jsstring) : no_LF s -> lines s = [s].
Proof.
  unfold no_LF, lines.
  induction s as [|c s IH]; cbn [existsb split_lf]; [reflexivity|].
  intros H. apply orb_false_elim in H as [Hc Hs].
  rewrite N.eqb_sym, Hc, (IH Hs). reflexivity.
Qed.

Lemma lines_prefix (p s : jsstring) :
  no_LF p -> lines (p ++ s) = (p ++ hd [] (lines s)) :: tl (lines s).
Proof.
  unfold no_LF, lines. induction p as [|c p IH]; cbn [existsb app].
  - intros _. destruct (split_lf_cons s) as [l [ls E]]. now rewrite E.
  - intros H. apply orb_false_elim in H as [Hc Hp].
    cbn [split_lf]. rewrite N.eqb_sym, Hc, (IH Hp). reflexivity.
Qed.

Lemma lines_break (a b : jsstring) :
  lines (a ++ LF :: b) = lines a ++ lines b.
Proof.
  unfold lines. induction a as [|c a IH]; simpl; [reflexivity|].
  rewrite IH. destruct (N.eqb c LF); [reflexivity|].
  destruct (split_lf_cons a) as [l [ls E]]. now rewrite E.
Qed.

Lemma lines_join (part : jsstring) (parts : list jsstring) :
  lines (join [LF] (part :: parts)) = List.concat (map lines (part :: parts)).
Proof.
  revert part. induction parts as [|q parts IH]; intros part.
  - simpl. now rewrite app_nil_r.
  - change (join [LF] (part :: q :: parts))
      with (part ++ LF :: join [LF] (q :: parts)).
    rewrite lines_break, IH. reflexivity.
Qed.

Lemma no_LF_app (a b : jsstring) : no_LF a -> no_LF b -> no_LF (a ++ b).
Proof. unfold no_LF. intros Ha Hb. now rewrite existsb_app, Ha, Hb. Qed.

Lemma no_LF_digits (d : Decimal.uint) :
  no_LF (lit (NilEmpty.string_of_uint d)).
Proof. unfold no_LF. induction d; simpl; auto. Qed.

Lemma no_LF_Number_toString (n : Z) : no_LF (Number_toString n).
Proof.
  unfold Number_toString, NilZero.string_of_int.
  destruct (Z.to_int n) as [d|d]; unfold NilZero.string_of_uint.
  - destruct d; try apply no_LF_digits. reflexivity.
  - change (lit (String "-" match d with
                             | Decimal.Nil => "0"%string
                             | _ => NilEmpty.string_of_uint d
                             end))
      with (45%N :: lit (match d with
                         | Decimal.Nil => "0"%string
                         | _ => NilEmpty.string_of_uint d
                         end)).
    apply (@no_LF_app [45%N]); [reflexivity|].
    destruct d; try apply no_LF_digits. reflexivity.
Qed.

Lemma no_LF_index (index : nat) :
  no_LF (Number_toString (Z.of_nat index + 1) ++ lit ") ").
Proof. apply no_LF_app; [apply no_LF_Number_toString | reflexivity]. Qed.

Lemma lines_numbered (index : nat) (rendered : jsstring) :
  lines (numbered index rendered)
  = (Number_toString (Z.of_nat index + 1) ++ lit ") " ++ hd [] (lines rendered))
      :: tl (lines rendered).
Proof.
  unfold numbered. rewrite app_assoc, lines_prefix by apply no_LF_index.
  now rewrite <- app_assoc.
Qed.

Lemma lines_numbered_length (index : nat) (rendered : jsstring) :
  List.length (lines (numbered index rendered)) = List.length (lines rendered).
Proof.
  rewrite lines_numbered. unfold lines.
  destruct (split_lf_cons rendered) as [l [ls E]]. now rewrite E.
Qed.


Section LineCount.

Local Abbreviation render :=
  (fun (item : value) (index : nat) => numbered index (formatResult item)).

Lemma block_lines (l : list value) :
  Forall (fun x => List.length (lines (formatResult x)) = leaf_count x) l ->
  forall k,
    List.length (List.concat (map lines (Array_map_from render k l)))
    = fold_right (fun x acc => (leaf_count x + acc)%nat) 0%nat l.
Proof.
  induction 1 as [|x l Hx _ IH]; intros k; simpl; [reflexivity|].
  rewrite length_app, IH.
  now rewrite lines_numbered_length, Hx.
Qed.

Lemma elements_one_line_per_leaf (items : list value) :
  text_or_integer_leaves (VArray items) = true ->
  nested_nonempty (VArray items) = true ->
  single_line_texts (VArray items) = true ->
  Forall one_line_per_leaf items.
Proof.
  cbn [text_or_integer_leaves nested_nonempty single_line_texts].
  intros H1 H2 H3. apply Forall_forall. intros x Hx.
  rewrite forallb_forall in H1, H2, H3.
  specialize (H1 x Hx). specialize (H2 x Hx). specialize (H3 x Hx).
  apply andb_prop in H2 as [H2 H2']. now repeat split.
Qed.

Lemma lines_count (v : value) :
  one_line_per_leaf v ->
  List.length (lines (formatResult v)) = leaf_count v.
Proof.
  induction v as [| |b|n|s|items IH|props _] using value_nested_ind;
    intros (H1 & H2 & H3 & H4); try discriminate.
  - (* a number *)
    cbn [formatResult leaf_count]. rewrite lines_single; [reflexivity|].
    apply no_LF_app; [reflexivity | apply no_LF_Number_toString].
  - (* a string *)
    cbn [formatResult leaf_count]. cbn [single_line_texts] in H4.
    apply negb_true_iff in H4.
    rewrite lines_single; [reflexivity|].
    apply (@no_LF_app [DQUOTE]); [reflexivity|].
    apply no_LF_app; [exact H4 | reflexivity].
  - (* an array *)
    destruct items as [|x items]; [discriminate|].
    rewrite formatResult_array, numbered_items_from.
    pose proof (elements_one_line_per_leaf _ H1 H3 H4) as Hall.
    assert (Hlen : Forall (fun y => List.length (lines (formatResult y)) = leaf_count y)
                     (x :: items)).
    { rewrite Forall_forall in *. intros y Hy. apply (IH y Hy). now apply Hall. }
    remember (x :: items) as l eqn:El.
    assert (Hne : exists p ps,
               Array_map_from (fun item index => numbered index (formatResult item)) 0 l
               = p :: ps) by (subst l; simpl; eauto).
    destruct Hne as [p [ps Hp]]. rewrite Hp, lines_join, <- Hp.
    cbn [leaf_count]. apply (block_lines Hlen).
Qed.

End LineCount.

(** ** Rendering rules *)

(** C4.  The fixed renderings: [null] and [undefined] give [(nil)], a string
    is wrapped in double quotes, an integer n gives [(integer) n], the empty
    array gives [(empty array)].  The integers are those a number holds
    exactly, of magnitude at most 2^53 - 1, where the runtime prints the
    decimal numeral. *)
Theorem scalar_renderings (n : Z) (t : jsstring) :
  is_safe_integer n = true ->
  formatResult VNull = lit "(nil)"
  /\ formatResult VUndefined = lit "(nil)"
  /\ formatResult (VString t) = [DQUOTE] ++ t ++ [DQUOTE]
  /\ formatResult (VNumber n) = lit "(integer) " ++ Number_toString n
  /\ formatResult (VArray []) = lit "(empty array)"
  /\ formatResult (VString (lit "value")) = [DQUOTE] ++ lit "value" ++ [DQUOTE]
  /\ formatResult (VNumber 3) = lit "(integer) 3"
  /\ formatResult (VNumber (-17)) = lit "(integer) -17"
  /\ formatResult (VNumber 9007199254740991) = lit "(integer) 9007199254740991".
Proof. intros _. repeat split; reflexivity. Qed.

(** C5.  A non-empty array is rendered as its elements joined by line feeds,
    element i (counting from 0) being the decimal numeral of i+1, then
    [") "], then the complete rendering of the element; a nested array is
    rendered in full, its own numbering starting again at 1, before the
    outer index is put in front of it. *)
Theorem sequence_rendering :
  (forall item items,
      formatResult (VArray (item :: items))
      = join [LF] (numbered_items (item :: items)))
  /\ (forall items i,
        nth_error (numbered_items items) i
        = option_map (fun x => Number_toString (Z.of_nat i + 1) ++ lit ") "
                               ++ formatResult x)
            (nth_error items i))
  /\ (let inner := VArray [VString (lit "b"); VString (lit "c")] in
      let reply := VArray [VString (lit "a"); inner] in
      lines (formatResult reply)
      = [lit "1) " ++ [DQUOTE] ++ lit "a" ++ [DQUOTE];
         lit "2) 1) " ++ [DQUOTE] ++ lit "b" ++ [DQUOTE];
         lit "2) " ++ [DQUOTE] ++ lit "c" ++ [DQUOTE]]
      /\ formatResult reply
         = lit "1) " ++ formatResult (VString (lit "a")) ++ [LF]
           ++ lit "2) " ++ formatResult inner
      /\ formatResult inner
         = lit "1) " ++ formatResult (VString (lit "b")) ++ [LF]
           ++ lit "2) " ++ formatResult (VString (lit "c"))).
Proof.
  split; [exact formatResult_array|]. split.
  - intros items i. rewrite numbered_items_from, Array_map_from_nth_error.
    reflexivity.
  - repeat split; reflexivity.
Qed.

(** C6 (as amended).  For every array, nested to any depth, whose leaves are
    numbers or strings without a line feed and in which every array, the
    outermost included, is non-empty: the rendering has as many lines as the
    reply has leaves; its lines are the blocks of the top-level elements one
    after the other, the block of element i having one line per leaf of that
    element and beginning with the numeral of i+1 and [") "], so the
    top-level prefixes run from [1)] to [N)] without a gap. *)
Theorem line_count_and_numbering (items : list value) :
  text_or_integer_leaves (VArray items) = true ->
  nonempty_array (VArray items) = true ->
  nested_nonempty (VArray items) = true ->
  single_line_texts (VArray items) = true ->
  let out := formatResult (VArray items) in
  List.length (lines out) = leaf_count (VArray items)
  /\ lines out = List.concat (map lines (numbered_items items))
  /\ List.length (numbered_items items) = List.length items
  /\ forall i x, nth_error items i = Some x ->
       exists rest more,
         nth_error (map lines (numbered_items items)) i
         = Some ((Number_toString (Z.of_nat i + 1) ++ lit ") " ++ rest) :: more)
         /\ S (List.length more) = leaf_count x.
Proof.
  intros H1 H2 H3 H4 out. subst out.
  split; [apply lines_count; now repeat split|].
  split; [|split].
  - destruct items as [|x items]; [discriminate|].
    rewrite formatResult_array. remember (x :: items) as l eqn:El.
    assert (Hne : exists p ps, numbered_items l = p :: ps)
      by (subst l; unfold numbered_items; simpl; eauto).
    destruct Hne as [p [ps Hp]]. now rewrite Hp, lines_join.
  - rewrite numbered_items_from. apply Array_map_from_length.
  - intros i x Hx.
    rewrite nth_error_map, numbered_items_from, Array_map_from_nth_error, Hx.
    cbn [option_map Nat.add]. rewrite lines_numbered.
    exists (hd [] (lines (formatResult x))), (tl (lines (formatResult x))).
    split; [reflexivity|].
    pose proof (elements_one_line_per_leaf _ H1 H3 H4) as Hall.
    rewrite Forall_forall in Hall.
    rewrite <- (lines_count (Hall x (nth_error_In _ _ Hx))).
    unfold lines. destruct (split_lf_cons (formatResult x)) as [l [ls E]].
    now rewrite E.
Qed.

(** ** Concrete runs *)

Lemma sample_clock_monotone (t more : list (event unit)) :
  (sample_clock t <= sample_clock (t ++ more))%Z.
Proof. unfold sample_clock. rewrite length_app. lia. Qed.

(** Every way of failing in one batch: all six commands are run, in order,
    and the rejected call in the third place leaves the message of the
    thrown error in its entry. *)
Lemma batch_failure_isolation_witness :
  let cmds := [lit "BADCMD"; lit " MUTE "; lit "BOOM"; lit "CRASH";
               lit "HUSH"; lit "DBSIZE"] in
  let out := for_commands faulty_backend sample_clock tt cmds [] [] in
  Forall (fun c => truthy (trim c) = true) cmds
  /\ executed (snd out)
     = [lit "BADCMD"; lit "MUTE"; lit "BOOM"; lit "CRASH"; lit "HUSH";
        lit "DBSIZE"]
  /\ List.length (fst out) = 6%nat
  /\ (exists o,
        nth_error (fst out) 2 = Some o
        /\ error o = Some (lit "connection lost")
        /\ shown_as_failure o = true)
  /\ map error (fst out)
     = [Some (lit "unknown command"); Some []; Some (lit "connection lost");
        Some (lit "timeout"); Some (lit "Error"); None]
  /\ map shown_as_failure (fst out) = [true; false; true; true; true; false].
Proof.
  intros cmds out.
  assert (H : Forall (fun c => truthy (trim c) = true) cmds)
    by (repeat constructor).
  split; [exact H|].
  destruct (@batch_failure_isolation unit faulty_backend sample_clock tt cmds [] H)
    as (_ & Hcalls & Hlen & _ & Hentry).
  split; [exact Hcalls|]. split; [exact Hlen|].
  split; [|split; reflexivity].
  destruct (Hentry 2%nat ltac:(simpl; lia)) as (o & Ho & _ & Hrejected).
  exists o. split; [exact Ho|].
  destruct Hrejected as (_ & Herr & Hshown). split; [exact Herr | exact Hshown].
Defined.

(** C1, as stated, fails: the backend refuses [MUTE] with an empty message,
    and the entry recorded for it does not count as a failure, it is shown
    as [(nil)] like a nil reply; and for the rejected [HUSH], whose error
    has an empty message, the entry carries the string form of the error,
    not its message. *)
Lemma empty_message_failure_is_not_shown :
  let out := fst (for_commands faulty_backend sample_clock tt
                    [lit "MUTE"; lit "HUSH"] [] []) in
  failed (faulty_backend [] tt (lit "MUTE")) = true
  /\ failure_message (faulty_backend [] tt (lit "MUTE")) = []
  /\ map shown_as_failure out = [false; true]
  /\ map display out = [lit "(nil)"; lit "(error) Error"]
  /\ map error out = [Some []; Some (lit "Error")].
Proof. repeat split; reflexivity. Qed.

Lemma scalar_renderings_witness :
  is_safe_integer (-17) = true
  /\ formatResult (VNumber (-17)) = lit "(integer) -17"
  /\ formatResult (VString (lit "value")) = [DQUOTE] ++ lit "value" ++ [DQUOTE]
  /\ formatResult VNull = lit "(nil)".
Proof.
  assert (H : is_safe_integer (-17) = true) by reflexivity.
  split; [exact H|].
  destruct (@scalar_renderings (-17) (lit "value") H)
    as (Hnull & _ & Htext & Hint & _ & _).
  split; [exact Hint|]. split; [exact Htext | exact Hnull].
Defined.

(** A text of blank lines and comments: nothing runs, and no warning is
    shown because the text is not empty. *)
Lemma empty_batch_runs_nothing_witness :
  let text := lit "  " ++ [LF] ++ lit "# note" ++ [LF] ++ lit "// done" in
  let s' := handleExecute sample_backend sample_clock (Some tt) text
              empty_session in
  forallb blank_or_comment (split_lf text) = true
  /\ executed (trace s') = []
  /\ results s' = []
  /\ warnings (trace s') = [].
Proof.
  intros text s'.
  assert (H : forallb blank_or_comment (split_lf text) = true) by reflexivity.
  split; [exact H|].
  exact (@empty_batch_runs_nothing unit sample_backend sample_clock (Some tt)
           text empty_session H).
Defined.

(** C2, as stated, fails: a text holding only a comment yields no command,
    yet the handler shows no warning. *)
Lemma comment_only_text_gives_no_warning :
  let text := lit "# comment" in
  let s' := handleExecute sample_backend sample_clock (Some tt) text
              empty_session in
  forallb blank_or_comment (split_lf text) = true
  /\ Split_spec text = []
  /\ executed (trace s') = []
  /\ warnings (trace s') = []
  /\ ~ In empty_input_warning (warnings (trace s')).
Proof. repeat split; try reflexivity. intros []. Qed.

Lemma batch_timestamps_monotone_witness :
  let cmds := [lit "BADCMD"; lit ""; lit "DBSIZE"; lit "GET k"] in
  let out := fst (for_commands sample_backend sample_clock tt cmds [] []) in
  (forall t more, (sample_clock t <= sample_clock (t ++ more))%Z)
  /\ map timestamp out = [1; 3; 5]%Z
  /\ StronglySorted Z.le (map timestamp out).
Proof.
  intros cmds out.
  split; [exact sample_clock_monotone|]. split; [reflexivity|].
  exact (proj2 (@batch_timestamps_monotone unit sample_backend sample_clock tt
                  cmds [] sample_clock_monotone)).
Defined.

Lemma line_count_and_numbering_witness :
  let items := [VString (lit "a"); VArray [VNumber 7; VString (lit "c")];
                VNumber 2] in
  text_or_integer_leaves (VArray items) = true
  /\ nonempty_array (VArray items) = true
  /\ nested_nonempty (VArray items) = true
  /\ single_line_texts (VArray items) = true
  /\ List.length (lines (formatResult (VArray items))) = 4%nat.
Proof.
  intros items. repeat (split; [reflexivity|]).
  exact (proj1 (@line_count_and_numbering items eq_refl eq_refl eq_refl eq_refl)).
Defined.

(** C6, as stated, fails: a string leaf may hold a line feed, and then the
    rendering has more lines than the reply has leaves.  (The empty array,
    which has no nested array at all, is rendered on one line for no leaf.) *)
Lemma text_with_line_feed_has_two_lines :
  let reply := VArray [VString (lit "a" ++ [LF] ++ lit "b")] in
  text_or_integer_leaves reply = true
  /\ nonempty_array reply = true
  /\ nested_nonempty reply = true
  /\ leaf_count reply = 1%nat
  /\ List.length (lines (formatResult reply)) = 2%nat
  /\ List.length (lines (formatResult reply)) <> leaf_count reply
  /\ text_or_integer_leaves (VArray []) = true
  /\ nested_nonempty (VArray []) = true
  /\ List.length (lines (formatResult (VArray []))) <> leaf_count (VArray []).
Proof. repeat split; try reflexivity; discriminate. Qed.

(** ** Further examples *)

Example trim_strips_both_ends :
  trim ([32; 9; 160; 8232]%N ++ lit "SET k v" ++ [13; 10]%N) = lit "SET k v".
Proof. reflexivity. Qed.

Example split_keeps_empty_pieces :
  split_lf (lit "a" ++ [LF] ++ [LF] ++ lit "b") = [lit "a"; []; lit "b"].
Proof. reflexivity. Qed.

Example carriage_returns_are_trimmed :
  Split_spec (lit "GET a" ++ [13; 10]%N ++ lit "  // note" ++ [13; 10]%N
              ++ lit "GET b" ++ [13; 10]%N)
  = [lit "GET a"; lit "GET b"].
Proof. reflexivity. Qed.

Example blank_text_is_warned :
  warnings (trace (handleExecute sample_backend sample_clock (Some tt)
                     (lit "   " ++ [LF]) empty_session))
  = [empty_input_warning].
Proof. reflexivity. Qed.

Example no_connection_does_nothing :
  handleExecute sample_backend sample_clock None (lit "DBSIZE") empty_session
  = empty_session.
Proof. reflexivity. Qed.

Example quoted_key_is_escaped :
  QuoteJSONString ([DQUOTE] ++ lit "k" ++ [10; 31]%N)
  = [DQUOTE] ++ [92; 34]%N ++ lit "k\n\u001f" ++ [DQUOTE].
Proof. reflexivity. Qed.

(** * Further properties *)

(** ** More on trimming and lines *)

Lemma trimStart_idempotent (s : jsstring) :
  trimStart (trimStart s) = trimStart s.
Proof.
  induction s as [|c s IH]; [reflexivity|].
  simpl. destruct (is_white_space c) eqn:E; [exact IH|].
  simpl. now rewrite E.
Qed.

Lemma trimStart_trimEnd (s : jsstring) :
  trimEnd (trimStart s) = trimStart (trimEnd s).
Proof.
  induction s as [|c s IH]; [reflexivity|].
  rewrite trimEnd_step. cbn [trimStart].
  destruct (is_white_space c) eqn:E.
  - rewrite IH. destruct (trimEnd s); [reflexivity|]. simpl. now rewrite E.
  - rewrite trimEnd_step.
    destruct (trimEnd s); simpl; now rewrite E.
Qed.

Lemma trimEnd_idempotent (s : jsstring) :
  trimEnd (trimEnd s) = trimEnd s.
Proof.
  rewrite (trimEnd_rev (trimEnd s)), (trimEnd_rev s), rev_involutive.
  now rewrite trimStart_idempotent.
Qed.

Lemma trim_idempotent (s : jsstring) : trim (trim s) = trim s.
Proof.
  unfold trim.
  now rewrite trimStart_trimEnd, trimEnd_idempotent, trimStart_idempotent.
Qed.

Lemma trimStart_white (s : jsstring) :
  truthy (trimStart s) = negb (forallb is_white_space s).
Proof.
  induction s as [|c s IH]; [reflexivity|].
  simpl. destruct (is_white_space c) eqn:E; [exact IH | reflexivity].
Qed.

Lemma trimEnd_keeps_first (c : N) (s : jsstring) :
  is_white_space c = false -> truthy (trimEnd (c :: s)) = true.
Proof.
  intros E. rewrite trimEnd_step. destruct (trimEnd s); [now rewrite E | reflexivity].
Qed.

(** [trim] returns the empty string exactly on white space. *)
Lemma trim_white (s : jsstring) :
  truthy (trim s) = negb (forallb is_white_space s).
Proof.
  unfold trim. rewrite <- trimStart_trimEnd, <- trimStart_white.
  induction s as [|c s IH]; [reflexivity|].
  simpl. destruct (is_white_space c) eqn:E; [exact IH|].
  rewrite (@trimEnd_keeps_first c s E). reflexivity.
Qed.

Lemma no_LF_cons (c : N) (s : jsstring) :
  no_LF (c :: s) <-> N.eqb LF c = false /\ no_LF s.
Proof.
  unfold no_LF. cbn [existsb]. rewrite orb_false_iff. reflexivity.
Qed.

Lemma no_LF_trimStart (s : jsstring) : no_LF s -> no_LF (trimStart s).
Proof.
  induction s as [|c s IH]; [easy|].
  intros H. simpl. destruct (is_white_space c); [|exact H].
  apply IH. now apply no_LF_cons in H.
Qed.

Lemma no_LF_trimEnd (s : jsstring) : no_LF s -> no_LF (trimEnd s).
Proof.
  induction s as [|c s IH]; [easy|].
  intros H. apply no_LF_cons in H as [Hc Hs]. rewrite trimEnd_step.
  specialize (IH Hs). destruct (trimEnd s) as [|d t].
  - destruct (is_white_space c); [reflexivity|].
    apply no_LF_cons. now split.
  - apply no_LF_cons. now split.
Qed.

Lemma no_LF_trim (s : jsstring) : no_LF s -> no_LF (trim s).
Proof. intros H. unfold trim. now apply no_LF_trimStart, no_LF_trimEnd. Qed.

(** No piece of [s.split('\n')] holds a line feed. *)
Lemma split_lf_no_LF (s : jsstring) : Forall no_LF (split_lf s).
Proof.
  induction s as [|c s IH]; [repeat constructor|].
  destruct (N.eqb c LF) eqn:E.
  - simpl. rewrite E. constructor; [reflexivity | exact IH].
  - rewrite (@split_lf_step c s E).
    destruct (split_lf_cons s) as [l [ls Es]]. rewrite Es in *.
    cbn [hd tl]. inversion IH as [|? ? Hl Hls]; subst.
    constructor; [|exact Hls].
    apply no_LF_cons. split; [now rewrite N.eqb_sym | exact Hl].
Qed.

Lemma Split_lines_app (ls ls' : list jsstring) :
  Split_lines (ls ++ ls') = Split_lines ls ++ Split_lines ls'.
Proof. unfold Split_lines. now rewrite map_app, filter_app. Qed.

(** The retained lines of two texts joined by a line feed. *)
Lemma Split_spec_join (a b : jsstring) :
  Split_spec (a ++ LF :: b) = Split_spec a ++ Split_spec b.
Proof.
  unfold Split_spec.
  pose proof (lines_break a b) as E. unfold lines in E.
  now rewrite E, Split_lines_app.
Qed.

Lemma Split_spec_clean (text : jsstring) :
  Forall clean_command (Split_spec text).
Proof.
  unfold Split_spec, Split_lines. apply Forall_forall. intros c Hc.
  apply filter_In in Hc as [Hin Hkeep].
  apply in_map_iff in Hin as [l [<- Hl]].
  apply negb_true_iff in Hkeep. unfold dropped in Hkeep.
  apply orb_false_elim in Hkeep as [Hkeep Hhash].
  apply orb_false_elim in Hkeep as [Hempty Hslash].
  apply negb_false_iff in Hempty.
  pose proof (split_lf_no_LF text) as Hlines. rewrite Forall_forall in Hlines.
  repeat split; try assumption.
  - apply trim_idempotent.
  - now apply no_LF_trim, Hlines.
Qed.

Lemma Split_spec_none (s : jsstring) :
  Split_spec s = [] -> forallb blank_or_comment (split_lf s) = true.
Proof.
  unfold Split_spec, Split_lines.
  induction (split_lf s) as [|l ls IH]; [reflexivity|].
  cbn [map filter forallb]. rewrite blank_or_comment_dropped.
  destruct (dropped (trim l)); [exact IH | discriminate].
Qed.

(** ** More on the execute handler *)

Section Handler.

Variable Config : Type.
Variable RedisExecuteCommand : list (event Config) -> Config -> jsstring -> Completion.
Variable Date_now : list (event Config) -> Z.

Local Abbreviation submit := (handleExecute RedisExecuteCommand Date_now).
Local Abbreviation outcomes := (batch_outcomes RedisExecuteCommand Date_now).

Lemma handleExecute_warnings (config : Config) (text : jsstring)
    (s : Session Config) :
  warnings (trace (submit (Some config) text s))
  = warnings (trace s)
    ++ (if forallb is_white_space text then [empty_input_warning] else []).
Proof.
  pose proof (trim_white text) as Hw.
  destruct (forallb is_white_space text); simpl in Hw.
  - unfold handleExecute. rewrite Hw. simpl. now rewrite warnings_app.
  - rewrite handleExecute_batch by assumption. simpl.
    now rewrite warnings_app, warnings_effects_of.
Qed.

Lemma handleExecute_blank (config : Config) (text : jsstring)
    (s : Session Config) :
  forallb is_white_space text = true ->
  submit (Some config) text s
  = {| results := results s;
       loading := loading s;
       trace := trace s ++ [EvWarning Config empty_input_warning] |}.
Proof.
  intros H. pose proof (trim_white text) as Hw. rewrite H in Hw. simpl in Hw.
  unfold handleExecute. now rewrite Hw.
Qed.

(** X1.  Whatever the editor holds, every command the handler sends to the
    backend is non-empty, has no white space left to trim at either end,
    holds no line feed and does not begin with [//] or [#]; the commands
    recorded in the new entries are the commands sent, in the same order. *)
Theorem backend_receives_clean_commands (config : Config) (text : jsstring)
    (s : Session Config) :
  let s' := submit (Some config) text s in
  exists sent new,
    executed (trace s') = executed (trace s) ++ sent
    /\ Forall clean_command sent
    /\ results s' = new ++ results s
    /\ map command new = sent.
Proof.
  intros s'. subst s'.
  exists (Split_spec text), (outcomes config (trace s) (commands (trim text))).
  split; [apply handleExecute_executed|].
  split; [apply Split_spec_clean|].
  split; [apply handleExecute_results|].
  now rewrite batch_outcomes_command, commands_Split_spec.
Qed.

Lemma batch_outcomes_trimmed (config : Config) (cmds : list jsstring) :
  forall cmds' tr,
    map trim cmds = map trim cmds' ->
    outcomes config tr cmds = outcomes config tr cmds'
    /\ effects_of config cmds = effects_of config cmds'.
Proof.
  induction cmds as [|c cmds IH]; intros [|c' cmds'] tr E;
    try discriminate; [now split|].
  cbn [map] in E. injection E as Ec Er.
  cbn [batch_outcomes effects_of flat_map]. rewrite Ec.
  destruct (IH cmds' (tr ++ [EvExecute config (trim c')] ++ [EvNow Config]) Er)
    as [Ho He].
  rewrite <- app_assoc, Ho. unfold effects_of in He. now rewrite He.
Qed.

Lemma batch_outcomes_app (config : Config) (l1 l2 : list jsstring) :
  forall tr,
    outcomes config tr (l1 ++ l2)
    = outcomes config tr l1
      ++ outcomes config (tr ++ effects_of config l1) l2.
Proof.
  induction l1 as [|c l1 IH]; intros tr.
  - simpl. now rewrite app_nil_r.
  - cbn [app batch_outcomes]. rewrite IH. cbn [effects_of flat_map app].
    now rewrite <- !app_assoc.
Qed.

Lemma effects_of_app (config : Config) (l1 l2 : list jsstring) :
  effects_of config (l1 ++ l2)
  = effects_of config l1 ++ effects_of config l2.
Proof. unfold effects_of. apply flat_map_app. Qed.

(** X2.  Two texts, neither of them white space only, submitted as one,
    joined by a line feed, or submitted one after the other: the effects are
    the same in the same order (the same backend calls and clock reads), the
    entries added are the same with the same replies and timestamps, and the
    busy flag ends the same; only the order of the entries differs, the
    single batch keeping the first text's entries first and the two batches
    putting the later batch first. *)
Theorem one_batch_or_two (config : Config) (a b : jsstring)
    (s : Session Config) :
  forallb is_white_space a = false ->
  forallb is_white_space b = false ->
  let one := submit (Some config) (a ++ LF :: b) s in
  let two := submit (Some config) b (submit (Some config) a s) in
  let outA := outcomes config (trace s) (commands (trim a)) in
  let outB := outcomes config
                (trace s ++ effects_of config (commands (trim a)))
                (commands (trim b)) in
  trace one = trace two
  /\ loading one = loading two
  /\ results one = outA ++ outB ++ results s
  /\ results two = outB ++ outA ++ results s.
Proof.
  intros Ha Hb one two outA outB. subst one two outA outB.
  assert (Hta : truthy (trim a) = true) by (now rewrite trim_white, Ha).
  assert (Htb : truthy (trim b) = true) by (now rewrite trim_white, Hb).
  assert (Htab : truthy (trim (a ++ LF :: b)) = true).
  { rewrite trim_white, forallb_app, Ha. reflexivity. }
  assert (E : map trim (commands (trim (a ++ LF :: b)))
              = map trim (commands (trim a) ++ commands (trim b))).
  { now rewrite map_app, !commands_Split_spec, Split_spec_join. }
  rewrite (handleExecute_batch RedisExecuteCommand Date_now config
             (a ++ LF :: b) s Htab).
  rewrite (handleExecute_batch RedisExecuteCommand Date_now config b _ Htb).
  rewrite (handleExecute_batch RedisExecuteCommand Date_now config a s Hta).
  cbn [trace results loading].
  destruct (batch_outcomes_trimmed config _ _ (trace s) E) as [Ho He].
  rewrite Ho, He, batch_outcomes_app, effects_of_app.
  now rewrite <- !app_assoc.
Qed.

(** X3.  With a connection, a submission reaches the backend at least once
    exactly when some line of the text is neither blank nor a comment. *)
Theorem runs_nothing_iff_no_command (config : Config) (text : jsstring)
    (s : Session Config) :
  executed (trace (submit (Some config) text s)) = executed (trace s)
  <-> forallb blank_or_comment (split_lf text) = true.
Proof.
  rewrite handleExecute_executed. split.
  - intros H. apply Split_spec_none.
    rewrite <- (app_nil_r (executed (trace s))) in H at 2.
    now apply app_inv_head in H.
  - intros H. now rewrite (Split_spec_all_dropped text H), app_nil_r.
Qed.

(** X4.  The warning is shown exactly when a connection exists and the text
    consists of white space only (the empty text included), and then once;
    on that path the entries, the busy flag and the backend are left alone.
    In every other case with a connection the busy flag ends up off. *)
Theorem warning_iff_white_space_only (config : option Config)
    (text : jsstring) (s : Session Config) :
  let s' := submit config text s in
  warnings (trace s')
  = warnings (trace s)
    ++ match config with
       | Some _ =>
           if forallb is_white_space text then [empty_input_warning] else []
       | None => []
       end
  /\ match config with
     | Some _ =>
         if forallb is_white_space text
         then results s' = results s
              /\ loading s' = loading s
              /\ executed (trace s') = executed (trace s)
         else loading s' = false
     | None => s' = s
     end.
Proof.
  intros s'. subst s'. destruct config as [config|].
  - split; [apply handleExecute_warnings|].
    destruct (forallb is_white_space text) eqn:H.
    + rewrite (handleExecute_blank config text s H). simpl.
      rewrite executed_app. simpl. now rewrite app_nil_r.
    + pose proof (trim_white text) as Hw. rewrite H in Hw.
      now rewrite handleExecute_batch by assumption.
  - simpl. now rewrite app_nil_r.
Qed.

End Handler.

(** ** Reading a rendering back *)

Lemma unlit_lit (s : String.string) : unlit (lit s) = s.
Proof.
  unfold unlit, lit. rewrite map_map.
  rewrite (map_ext _ (fun a => a)) by (intros a; apply ascii_N_embedding).
  rewrite map_id. apply string_of_list_ascii_of_string.
Qed.

Lemma to_int_parses (n : Z) :
  NilZero.int_of_string (NilZero.string_of_int (Z.to_int n))
  = Some (Z.to_int n).
Proof.
  apply NilZero.isi; destruct n; simpl; try discriminate.
  - intros [= H]. now apply DecimalPos.Unsigned.to_uint_nonnil in H.
  - intros [= H]. now apply DecimalPos.Unsigned.to_uint_nonnil in H.
Qed.

Lemma startsWith_prefix (p r : jsstring) : startsWith (p ++ r) p = true.
Proof.
  induction p as [|a p IH]; simpl; [now destruct r|].
  now rewrite N.eqb_refl, IH.
Qed.

Lemma kind_of_rendering_formatResult (v : value) :
  kind_of_rendering (formatResult v) = Some (kind_of v).
Proof.
  destruct v as [| |b|n|s|items|props]; try reflexivity.
  - now destruct b.
  - destruct items as [|x [|y l]]; reflexivity.
  - cbn [formatResult kind_of]. unfold JSON.SerializeJSONObject, JSON.wrap.
    destruct (JSON.object_partial _ _ props); reflexivity.
Qed.

(** X5.  The rendering of a reply is never empty, and its first characters
    tell which kind of reply it was (nil, text, integer, empty array, array,
    object or boolean): two replies of different kinds never have the same
    rendering. *)
Theorem rendering_shows_the_kind (v : value) :
  kind_of_rendering (formatResult v) = Some (kind_of v)
  /\ formatResult v <> [].
Proof.
  split; [apply kind_of_rendering_formatResult|].
  intros E. pose proof (kind_of_rendering_formatResult v) as H.
  rewrite E in H. discriminate.
Qed.

(** X6.  An integer in the safe range or a string can be read back from
    its rendering: the decimal numeral after [(integer) ] parses to the
    number, and the text between the first and the last double quote is the
    string.  So two different safe integers, or two different strings, are
    never rendered alike. *)
Theorem scalars_read_back (n : Z) (t : jsstring) :
  is_safe_integer n = true ->
  read_integer (formatResult (VNumber n)) = Some n
  /\ read_text (formatResult (VString t)) = Some t.
Proof.
  intros _. split.
  - unfold read_integer. cbn [formatResult].
    rewrite startsWith_prefix.
    change (skipn 10 (lit "(integer) " ++ Number_toString n))
      with (Number_toString n).
    unfold Number_toString. rewrite unlit_lit, to_int_parses. simpl.
    now rewrite DecimalZ.of_to.
  - unfold read_text. cbn [formatResult]. unfold DQUOTE.
    rewrite rev_app_distr. simpl. now rewrite rev_involutive.
Qed.

(** X7.  How an entry is shown.  A failed command whose message is not
    empty is shown as [(error) ] and the message, which no rendering of a
    reply can ever equal; a failed command whose message is empty is shown
    as [(nil)], exactly like a command that succeeded with a nil reply; a
    command that succeeded is shown as the rendering of its reply. *)
Theorem entry_display (trimmedCmd : jsstring) (c : Completion) (now : Z) :
  let shown := display (entry trimmedCmd c now) in
  match c with
  | Resolved res =>
      if success res then shown = formatResult (data res)
      else if truthy (message res)
           then shown = lit "(error) " ++ message res
                /\ (forall v, shown <> formatResult v)
           else shown = formatResult VNull
  | Rejected e =>
      if truthy (caught_message e)
      then shown = lit "(error) " ++ caught_message e
           /\ (forall v, shown <> formatResult v)
      else shown = formatResult VNull
  end.
Proof.
  assert (Herr : forall m v, lit "(error) " ++ m <> formatResult v).
  { intros m v E. pose proof (kind_of_rendering_formatResult v) as H.
    rewrite <- E in H. discriminate. }
  intros shown. subst shown. unfold display.
  destruct c as [res|e]; cbn [entry error result].
  - destruct (success res); [reflexivity|].
    destruct (truthy (message res)); [split; [reflexivity | apply Herr] | reflexivity].
  - destruct (truthy (caught_message e));
      [split; [reflexivity | apply Herr] | reflexivity].
Qed.

(** ** Lines and control characters of a rendering *)

Lemma lf_count_app (a b : jsstring) :
  lf_count (a ++ b) = (lf_count a + lf_count b)%nat.
Proof. unfold lf_count. now rewrite filter_app, length_app. Qed.

Lemma lf_count_no_LF (s : jsstring) : no_LF s -> lf_count s = 0%nat.
Proof.
  unfold no_LF, lf_count. induction s as [|c s IH]; [reflexivity|].
  cbn [existsb filter]. intros H. apply orb_false_elim in H as [Hc Hs].
  rewrite Hc. now apply IH.
Qed.

Lemma lines_length (s : jsstring) :
  List.length (lines s) = S (lf_count s).
Proof.
  unfold lines, lf_count. induction s as [|c s IH]; [reflexivity|].
  cbn [filter]. rewrite (N.eqb_sym LF c).
  destruct (N.eqb c LF) eqn:E.
  - simpl. rewrite E. simpl. now rewrite IH.
  - rewrite (@split_lf_step c s E).
    destruct (split_lf_cons s) as [l [ls Es]]. rewrite Es in IH. now rewrite Es.
Qed.

Lemma hex_digit_not_C0 (d : N) : not_C0 (hex_digit d).
Proof. unfold not_C0, hex_digit. destruct (N.ltb d 10); lia. Qed.

Lemma UnicodeEscape_not_C0 (c : N) : Forall not_C0 (UnicodeEscape c).
Proof.
  unfold UnicodeEscape. repeat constructor; try apply hex_digit_not_C0;
    unfold not_C0; lia.
Qed.

Lemma leading_surrogate_not_C0 (c : N) :
  is_leading_surrogate c = true -> not_C0 c.
Proof.
  unfold is_leading_surrogate, not_C0. intros H.
  apply andb_prop in H as [H _]. apply N.leb_le in H. lia.
Qed.

Lemma trailing_surrogate_not_C0 (c : N) :
  is_trailing_surrogate c = true -> not_C0 c.
Proof.
  unfold is_trailing_surrogate, not_C0. intros H.
  apply andb_prop in H as [H _]. apply N.leb_le in H. lia.
Qed.

Lemma quote_body_not_C0_upto (n : nat) :
  forall s, (List.length s <= n)%nat -> Forall not_C0 (quote_body s).
Proof.
  induction n as [|n IH]; intros [|c s] Hlen; simpl in Hlen; try constructor; try lia.
  assert (Hs : Forall not_C0 (quote_body s)) by (apply IH; lia).
  cbn [quote_body].
  repeat match goal with
         | |- context [if ?b then _ else _] => destruct b eqn:?
         end;
    try (apply Forall_app; split; [|exact Hs]);
    try apply UnicodeEscape_not_C0;
    try solve [repeat (constructor; [cbv; discriminate|]); constructor].
  - destruct s as [|d s']; [apply UnicodeEscape_not_C0|].
    destruct (is_trailing_surrogate d) eqn:Ed.
    + constructor; [now apply leading_surrogate_not_C0|].
      constructor; [now apply trailing_surrogate_not_C0|].
      apply IH. simpl in Hlen. lia.
    + apply Forall_app; split; [apply UnicodeEscape_not_C0 | exact Hs].
  - constructor; [|exact Hs]. unfold not_C0. apply N.ltb_ge. assumption.
Qed.

Lemma QuoteJSONString_not_C0 (s : jsstring) :
  Forall not_C0 (QuoteJSONString s).
Proof.
  unfold QuoteJSONString. constructor; [cbv; discriminate|].
  apply Forall_app. split; [now apply (quote_body_not_C0_upto (n := List.length s))|].
  repeat constructor. cbv; discriminate.
Qed.

Lemma not_C0_no_LF (s : jsstring) : Forall not_C0 s -> no_LF s.
Proof.
  unfold no_LF. induction 1 as [|c s Hc _ IH]; [reflexivity|].
  cbn [existsb]. rewrite IH, orb_false_r. unfold not_C0 in Hc.
  apply N.eqb_neq. unfold LF. lia.
Qed.

Lemma not_C0_lfp (s : jsstring) : Forall not_C0 s -> Forall line_feed_or_not_C0 s.
Proof. apply Forall_impl. intros c H. now right. Qed.

Lemma digits_not_C0 (d : Decimal.uint) :
  Forall not_C0 (lit (NilEmpty.string_of_uint d)).
Proof. induction d; simpl; constructor; try assumption; cbv; discriminate. Qed.

Lemma Number_toString_not_C0 (n : Z) : Forall not_C0 (Number_toString n).
Proof.
  unfold Number_toString, NilZero.string_of_int.
  destruct (Z.to_int n) as [d|d]; unfold NilZero.string_of_uint.
  - destruct d; try apply digits_not_C0. repeat constructor. cbv; discriminate.
  - change (lit (String "-" match d with
                             | Decimal.Nil => "0"%string
                             | _ => NilEmpty.string_of_uint d
                             end))
      with (45%N :: lit (match d with
                         | Decimal.Nil => "0"%string
                         | _ => NilEmpty.string_of_uint d
                         end)).
    constructor; [cbv; discriminate|].
    destruct d; try apply digits_not_C0. repeat constructor. cbv; discriminate.
Qed.

Lemma join_lfp (sep : jsstring) (parts : list jsstring) :
  Forall line_feed_or_not_C0 sep -> Forall (Forall line_feed_or_not_C0) parts -> Forall line_feed_or_not_C0 (join sep parts).
Proof.
  intros Hsep. induction 1 as [|p ps Hp Hps IH]; [constructor|].
  destruct ps as [|q ps]; [exact Hp|].
  change (join sep (p :: q :: ps)) with (p ++ sep ++ join sep (q :: ps)).
  rewrite !Forall_app. auto.
Qed.

Ltac lfp_pieces :=
  repeat (apply Forall_app; split);
  try solve [apply not_C0_lfp;
             first [assumption | repeat constructor; cbv; discriminate]];
  try solve [repeat constructor; now left].

Lemma wrap_lfp (open close stepback : jsstring) (partial : list jsstring) :
  Forall not_C0 open -> Forall not_C0 close -> Forall not_C0 stepback ->
  Forall (Forall line_feed_or_not_C0) partial ->
  Forall line_feed_or_not_C0 (JSON.wrap open close (lit "  ") stepback partial).
Proof.
  intros Ho Hc Hs Hp. unfold JSON.wrap.
  destruct partial as [|p ps]; [lfp_pieces|].
  cbn [lit list_ascii_of_string map]. lfp_pieces.
  apply join_lfp; [lfp_pieces | exact Hp].
Qed.

Lemma serialize_lfp (v : value) :
  forall indent, Forall not_C0 indent ->
    match JSON.SerializeJSONProperty (lit "  ") indent v with
    | Some s => Forall line_feed_or_not_C0 s
    | None => True
    end.
Proof.
  induction v as [| |b|n|s|items IH|props IH] using value_nested_ind;
    intros indent Hind; cbn [JSON.SerializeJSONProperty].
  - apply not_C0_lfp. repeat constructor; cbv; discriminate.
  - exact I.
  - apply not_C0_lfp. destruct b; repeat constructor; cbv; discriminate.
  - apply not_C0_lfp, Number_toString_not_C0.
  - apply not_C0_lfp, QuoteJSONString_not_C0.
  - assert (Hi : Forall not_C0 (indent ++ lit "  ")).
    { rewrite Forall_app. split; [exact Hind|]. repeat constructor; cbv; discriminate. }
    apply wrap_lfp; try assumption; try (repeat constructor; cbv; discriminate).
    unfold JSON.array_partial. apply Forall_map.
    apply Forall_impl with (2 := IH). intros x Hx. specialize (Hx _ Hi).
    destruct (JSON.SerializeJSONProperty (lit "  ") (indent ++ lit "  ") x);
      [exact Hx|]. apply not_C0_lfp. repeat constructor; cbv; discriminate.
  - assert (Hi : Forall not_C0 (indent ++ lit "  ")).
    { rewrite Forall_app. split; [exact Hind|]. repeat constructor; cbv; discriminate. }
    apply wrap_lfp; try assumption; try (repeat constructor; cbv; discriminate).
    unfold JSON.object_partial.
    induction IH as [|[k x] props Hx _ IHprops]; [constructor|].
    cbn [flat_map]. apply Forall_app. split; [|exact IHprops].
    cbn [snd] in Hx. specialize (Hx _ Hi).
    destruct (JSON.SerializeJSONProperty (lit "  ") (indent ++ lit "  ") x);
      [|constructor].
    constructor; [|constructor]. rewrite !Forall_app. repeat split.
    + apply not_C0_lfp, QuoteJSONString_not_C0.
    + apply not_C0_lfp. repeat constructor; cbv; discriminate.
    + exact Hx.
Qed.

Lemma lf_count_join (sep p : jsstring) (ps : list jsstring) :
  lf_count sep = 1%nat ->
  S (lf_count (join sep (p :: ps)))
  = fold_right (fun q acc => (S (lf_count q) + acc)%nat) 0%nat (p :: ps).
Proof.
  intros Hsep. revert p. induction ps as [|q ps IH]; intros p.
  - simpl. lia.
  - change (join sep (p :: q :: ps)) with (p ++ sep ++ join sep (q :: ps)).
    rewrite !lf_count_app, Hsep. specialize (IH q).
    cbn [fold_right] in *. lia.
Qed.

Lemma lf_count_wrap (open close stepback : jsstring) (partial : list jsstring) :
  no_LF open -> no_LF close -> no_LF stepback ->
  S (lf_count (JSON.wrap open close (lit "  ") stepback partial))
  = match partial with
    | [] => 1%nat
    | _ :: _ =>
        (2 + fold_right (fun q acc => (S (lf_count q) + acc)%nat) 0%nat partial)%nat
    end.
Proof.
  intros Ho Hc Hs. unfold JSON.wrap. destruct partial as [|p ps].
  - now rewrite lf_count_app, (lf_count_no_LF Ho), (lf_count_no_LF Hc).
  - cbn [lit list_ascii_of_string map].
    match goal with
    | |- context [join ?sp (p :: ps)] =>
        assert (Hj : lf_count sp = 1%nat)
          by (rewrite !lf_count_app, (lf_count_no_LF Hs); reflexivity);
        pose proof (@lf_count_join sp p ps Hj) as Hjoin
    end.
    rewrite !lf_count_app, (lf_count_no_LF Ho), (lf_count_no_LF Hc),
      !(lf_count_no_LF Hs).
    change (lf_count [LF]) with 1%nat.
    change (lf_count [N_of_ascii " "; N_of_ascii " "]) with 0%nat.
    lia.
Qed.

Lemma serialize_undefined (gap indent : jsstring) (v : value) :
  JSON.SerializeJSONProperty gap indent v = None <-> v = VUndefined.
Proof. destruct v; simpl; split; intros H; congruence. Qed.

Lemma serialize_lines (v : value) :
  forall indent, no_LF indent ->
    match JSON.SerializeJSONProperty (lit "  ") indent v with
    | Some s => S (lf_count s) = json_lines v
    | None => v = VUndefined
    end.
Proof.
  induction v as [| |b|n|s|items IH|props IH] using value_nested_ind;
    intros indent Hind; cbn [JSON.SerializeJSONProperty]; try reflexivity.
  - destruct b; reflexivity.
  - cbn [json_lines]. now rewrite (lf_count_no_LF (no_LF_Number_toString n)).
  - cbn [json_lines].
    now rewrite (lf_count_no_LF (not_C0_no_LF (QuoteJSONString_not_C0 s))).
  - assert (Hi : no_LF (indent ++ lit "  ")) by (now apply no_LF_app).
    rewrite lf_count_wrap; try assumption; try reflexivity.
    cbn [json_lines]. destruct items as [|x items]; [reflexivity|].
    remember (x :: items) as l eqn:El.
    assert (E : fold_right (fun q acc => (S (lf_count q) + acc)%nat) 0%nat
                  (JSON.array_partial
                     (JSON.SerializeJSONProperty (lit "  ") (indent ++ lit "  ")) l)
                = fold_right (fun y acc => (json_lines y + acc)%nat) 0%nat l).
    { clear El. induction IH as [|y l Hy _ IHl]; [reflexivity|].
      cbn [JSON.array_partial map fold_right]. unfold JSON.array_partial in IHl.
      rewrite IHl. specialize (Hy _ Hi).
      destruct (JSON.SerializeJSONProperty (lit "  ") (indent ++ lit "  ") y);
        [now rewrite Hy | now subst y]. }
    rewrite E. subst l. reflexivity.
  - assert (Hi : no_LF (indent ++ lit "  ")) by (now apply no_LF_app).
    rewrite lf_count_wrap; try assumption; try reflexivity.
    cbn [json_lines].
    assert (E : fold_right (fun q acc => (S (lf_count q) + acc)%nat) 0%nat
                  (JSON.object_partial
                     (JSON.SerializeJSONProperty (lit "  ") (indent ++ lit "  "))
                     (JSON.colon (lit "  ")) props)
                = fold_right
                    (fun kv acc =>
                       match kv with
                       | (_, x) =>
                           match x with
                           | VUndefined => acc
                           | _ => (json_lines x + acc)%nat
                           end
                       end) 0%nat props
                /\ (JSON.object_partial
                     (JSON.SerializeJSONProperty (lit "  ") (indent ++ lit "  "))
                     (JSON.colon (lit "  ")) props = []
                    <-> filter (fun kv => match snd kv with
                                          | VUndefined => false
                                          | _ => true
                                          end) props = [])).
    { induction IH as [|[k y] l Hy _ [IHl IHe]]; [now split|].
      cbn [JSON.object_partial flat_map fold_right filter snd] in *.
      unfold JSON.object_partial in IHl, IHe.
      specialize (Hy _ Hi).
      destruct (JSON.SerializeJSONProperty (lit "  ") (indent ++ lit "  ") y)
        as [r|] eqn:Er.
      - assert (Hne : y <> VUndefined)
          by (intros ->; discriminate).
        split.
        + cbn [app fold_right]. rewrite IHl.
          rewrite !lf_count_app.
          rewrite (lf_count_no_LF (not_C0_no_LF (QuoteJSONString_not_C0 k))).
          change (lf_count (JSON.colon (lit "  "))) with 0%nat.
          rewrite <- Hy. destruct y; try congruence; cbv iota; lia.
        + destruct y; try congruence; split; discriminate.
      - subst y. split; [exact IHl | exact IHe]. }
    destruct E as [E Hempty]. rewrite E.
    destruct (JSON.object_partial _ _ props) eqn:Ep.
    + destruct Hempty as [Hempty _]. now rewrite Hempty.
    + destruct (filter _ props) eqn:Ef; [|reflexivity].
      destruct Hempty as [_ Hempty]. now specialize (Hempty eq_refl).
Qed.

Lemma block_lines_sum (f : value -> nat) (l : list value) :
  Forall (fun x => List.length (lines (formatResult x)) = f x) l ->
  forall k,
    List.length
      (List.concat
         (map lines
            (Array_map_from
               (fun item index => numbered index (formatResult item)) k l)))
    = fold_right (fun x acc => (f x + acc)%nat) 0%nat l.
Proof.
  induction 1 as [|x l Hx _ IH]; intros k; simpl; [reflexivity|].
  now rewrite length_app, IH, lines_numbered_length, Hx.
Qed.

(** X8.  The number of lines of a rendering is fixed by the shape of the
    reply: a string takes one line more than it holds line feeds; a number,
    a nil, a boolean and an empty array take one line; a non-empty array
    takes the lines of its elements added up; an object takes the lines of
    its JSON form, on which the strings and keys inside have no influence
    because their line feeds are written as escapes. *)
Theorem rendering_line_count (v : value) :
  List.length (lines (formatResult v)) = rendered_lines v.
Proof.
  induction v as [| |b|n|s|items IH|props _] using value_nested_ind;
    try reflexivity.
  - now destruct b.
  - rewrite lines_length. cbn [formatResult rendered_lines].
    rewrite lf_count_app, (lf_count_no_LF (no_LF_Number_toString n)).
    reflexivity.
  - rewrite lines_length. cbn [formatResult rendered_lines].
    change (DQUOTE :: s ++ [DQUOTE]) with ([DQUOTE] ++ s ++ [DQUOTE]).
    rewrite !lf_count_app. change (lf_count [DQUOTE]) with 0%nat. lia.
  - destruct items as [|x items]; [reflexivity|].
    rewrite formatResult_array, numbered_items_from.
    remember (x :: items) as l eqn:El.
    assert (Hne : exists p ps,
               Array_map_from (fun item index => numbered index (formatResult item)) 0 l
               = p :: ps) by (subst l; simpl; eauto).
    destruct Hne as [p [ps Hp]]. rewrite Hp, lines_join, <- Hp.
    rewrite (block_lines_sum rendered_lines IH). subst l. reflexivity.
  - rewrite lines_length.
    exact (serialize_lines (VObject props) (indent := []) eq_refl).
Qed.

(** X9.  The rendering of an object holds no code unit below U+0020 (the C0
    controls) except the line feeds that separate its lines: such characters
    inside keys and string values are written as escapes, whereas a string
    reply on its own is shown as it is. *)
Theorem object_rendering_escapes_C0_controls
    (props : list (jsstring * value)) :
  Forall line_feed_or_not_C0 (formatResult (VObject props)).
Proof.
  exact (serialize_lfp (VObject props) (indent := []) (Forall_nil _)).
Qed.

(** ** Timestamps and keys of the entries *)

Lemma StronglySorted_lt_NoDup (l : list Z) :
  StronglySorted Z.lt l -> NoDup l.
Proof.
  induction 1 as [|x l _ IH Hx]; constructor; [|exact IH].
  intros Hin. rewrite Forall_forall in Hx. specialize (Hx x Hin). lia.
Qed.

Lemma keys_from_sorted (l : list CommandResult) :
  StronglySorted Z.le (map timestamp l) ->
  forall k,
    StronglySorted Z.lt
      (Array_map_from
         (fun item index => (timestamp item + Z.of_nat index)%Z) k l)
    /\ Forall (fun key => exists o j, In o l /\ (k <= j)%nat
                                      /\ key = (timestamp o + Z.of_nat j)%Z)
         (Array_map_from
            (fun item index => (timestamp item + Z.of_nat index)%Z) k l).
Proof.
  induction l as [|x l IH]; intros Hs k; [split; constructor|].
  cbn [map] in Hs. apply StronglySorted_inv in Hs as [Hs Hx].
  destruct (IH Hs (S k)) as [IHs IHf]. cbn [Array_map_from]. split.
  - constructor; [exact IHs|].
    apply Forall_impl with (2 := IHf). intros key (o & j & Ho & Hj & ->).
    rewrite Forall_forall in Hx.
    specialize (Hx (timestamp o) (in_map timestamp _ _ Ho)). lia.
  - constructor.
    + exists x, k. repeat split; [now left | lia].
    + apply Forall_impl with (2 := IHf). intros key (o & j & Ho & Hj & ->).
      exists o, j. repeat split; [now right | lia].
Qed.

Section Timestamps.

Variable Config : Type.
Variable RedisExecuteCommand : list (event Config) -> Config -> jsstring -> Completion.
Variable Date_now : list (event Config) -> Z.

Local Abbreviation submit := (handleExecute RedisExecuteCommand Date_now).
Local Abbreviation outcomes := (batch_outcomes RedisExecuteCommand Date_now).

Hypothesis clock_monotone :
  forall t more, (Date_now t <= Date_now (t ++ more))%Z.

Lemma batch_outcomes_sorted (config : Config) (cmds : list jsstring) :
  forall tr, StronglySorted Z.le (map timestamp (outcomes config tr cmds)).
Proof.
  induction cmds as [|cmd rest IH]; intros tr; simpl; constructor.
  - apply IH.
  - rewrite entry_timestamp. apply Forall_forall. intros z Hz.
    apply in_map_iff in Hz as [o [<- Ho]].
    apply batch_outcomes_timestamp in Ho as [more ->].
    rewrite <- app_assoc. apply clock_monotone.
Qed.

(** Every timestamp of a batch is a reading of the clock at some point of
    the effects of that batch. *)
Lemma batch_outcomes_timestamp_within (config : Config) (cmds : list jsstring) :
  forall tr o, In o (outcomes config tr cmds) ->
    exists more rest,
      timestamp o = Date_now (tr ++ more)
      /\ effects_of config cmds = more ++ rest.
Proof.
  induction cmds as [|cmd rest IH]; intros tr o Ho; simpl in Ho; [easy|].
  destruct Ho as [<-|Ho].
  - rewrite entry_timestamp.
    exists [EvExecute config (trim cmd)], (EvNow Config :: effects_of config rest).
    split; reflexivity.
  - apply IH in Ho as (more & rest' & Ht & He).
    exists (EvExecute config (trim cmd) :: EvNow Config :: more), rest'.
    split.
    + rewrite Ht. now rewrite <- !app_assoc.
    + simpl. now rewrite He.
Qed.

(** X10.  With a clock that never goes back, the keys [timestamp + index]
    of the entries of one batch shown on its own (an empty list before the
    submission, as after a clear) increase strictly from one entry to the
    next, so no two items of the list share a key. *)
Theorem keys_distinct_within_a_batch (config : Config) (text : jsstring)
    (s : Session Config) :
  results s = [] ->
  let s' := submit (Some config) text s in
  StronglySorted Z.lt (item_keys (results s'))
  /\ NoDup (item_keys (results s')).
Proof.
  intros Hempty s'. subst s'.
  rewrite handleExecute_results, Hempty, app_nil_r.
  assert (H : StronglySorted Z.lt
                (item_keys (outcomes config (trace s) (commands (trim text))))).
  { unfold item_keys, Array_map.
    apply keys_from_sorted, batch_outcomes_sorted. }
  split; [exact H | now apply StronglySorted_lt_NoDup].
Qed.

(** X11.  With a clock that never goes back, every entry of a later batch
    carries a timestamp at least as large as every entry of the batch
    submitted before it: the list runs from the newest batch to the oldest,
    each batch in chronological order. *)
Theorem later_batch_has_later_timestamps (configA configB : Config)
    (A B : jsstring) (s : Session Config) :
  let s1 := submit (Some configA) A s in
  let outA := outcomes configA (trace s) (commands (trim A)) in
  let outB := outcomes configB (trace s1) (commands (trim B)) in
  results (submit (Some configB) B s1) = outB ++ outA ++ results s
  /\ Forall (fun oA =>
               Forall (fun oB => (timestamp oA <= timestamp oB)%Z) outB) outA.
Proof.
  intros s1 outA outB. subst s1 outA outB. split.
  - now rewrite !handleExecute_results.
  - apply Forall_forall. intros oA HA. apply Forall_forall. intros oB HB.
    destruct (truthy (trim A)) eqn:Ht.
    + rewrite handleExecute_batch in HB by assumption. cbn [trace] in HB.
      apply batch_outcomes_timestamp_within in HA as (more & rest & -> & He).
      apply batch_outcomes_timestamp in HB as [more' ->].
      rewrite He, <- !app_assoc, (app_assoc (trace s) more).
      apply clock_monotone.
    + destruct (trim A); [|discriminate]. destruct HA.
Qed.

End Timestamps.

(** ** The configuration sent to the backend *)

Lemma string_eqb_eq (a b : jsstring) : string_eqb a b = true <-> a = b.
Proof.
  revert b. induction a as [|x a IH]; intros [|y b]; simpl;
    try (split; [discriminate | discriminate]); [now split|].
  rewrite andb_true_iff, N.eqb_eq, IH. split.
  - now intros [-> ->].
  - now intros [= -> ->].
Qed.

Lemma string_eqb_refl (a : jsstring) : string_eqb a a = true.
Proof. now apply string_eqb_eq. Qed.

Lemma get_set_same (k : jsstring) (v : value) (o : list (jsstring * value)) :
  get_prop k (set_prop k v o) = v.
Proof.
  unfold get_prop. induction o as [|[k' v'] o IH]; simpl.
  - now rewrite string_eqb_refl.
  - destruct (string_eqb k' k) eqn:E; simpl; rewrite E; [reflexivity | exact IH].
Qed.

Lemma get_set_other (k k' : jsstring) (v : value)
    (o : list (jsstring * value)) :
  string_eqb k' k = false ->
  get_prop k' (set_prop k v o) = get_prop k' o.
Proof.
  intros Hk. unfold get_prop. induction o as [|[k0 v0] o IH]; simpl.
  - destruct (string_eqb k k') eqn:E; [|reflexivity].
    apply string_eqb_eq in E. subst k'. now rewrite string_eqb_refl in Hk.
  - destruct (string_eqb k0 k) eqn:E; simpl.
    + apply string_eqb_eq in E. subst k0.
      destruct (string_eqb k k') eqn:E'; [|reflexivity].
      apply string_eqb_eq in E'. subst k'. now rewrite string_eqb_refl in Hk.
    + destruct (string_eqb k0 k'); [reflexivity | exact IH].
Qed.

Lemma set_prop_keys (k : jsstring) (v : value) (o : list (jsstring * value)) :
  exists added, map fst (set_prop k v o) = map fst o ++ added.
Proof.
  induction o as [|[k' v'] o [added IH]]; simpl.
  - now exists [k].
  - destruct (string_eqb k' k); simpl.
    + exists []. now rewrite app_nil_r.
    + exists added. now rewrite IH.
Qed.

Section Configuration.

Variable Number : value -> value.

(** X12.  When the store holds a connection with the given id, [getConfig]
    returns the configuration of the first such connection with five
    properties written: [port] converted to a number, [password] kept when
    truthy and the empty string otherwise, [useSSH] kept when truthy and
    [false] otherwise, [ssh] kept when truthy and the default otherwise
    (port 22, empty strings), and [redisDB] the current database whatever
    the stored configuration says.  Every other property is passed on
    unchanged, and the stored properties keep their order. *)
Theorem getConfig_fields (connections : list Store.Connection)
    (connectionId : jsstring) (redisDB : Z) (connection : Store.Connection) :
  connection_of connections connectionId = Some connection ->
  let stored := Store.config connection in
  exists c,
    getConfig Number connections connectionId redisDB = Some c
    /\ Store.id connection = connectionId
    /\ get_prop (lit "port") c = Number (get_prop (lit "port") stored)
    /\ get_prop (lit "password") c
       = (if ToBoolean (get_prop (lit "password") stored)
          then get_prop (lit "password") stored else VString [])
    /\ get_prop (lit "useSSH") c
       = (if ToBoolean (get_prop (lit "useSSH") stored)
          then get_prop (lit "useSSH") stored else VBoolean false)
    /\ get_prop (lit "ssh") c
       = (if ToBoolean (get_prop (lit "ssh") stored)
          then get_prop (lit "ssh") stored else default_ssh)
    /\ get_prop (lit "redisDB") c = VNumber redisDB
    /\ (forall k, written_by_getConfig k = false ->
                  get_prop k c = get_prop k stored)
    /\ exists added, map fst c = map fst stored ++ added.
Proof.
  intros Hfound stored. unfold getConfig. rewrite Hfound. fold stored.
  eexists. split; [reflexivity|].
  split.
  { apply find_some in Hfound as [_ H]. now apply string_eqb_eq. }
  split.
  { rewrite !get_set_other by reflexivity. apply get_set_same. }
  split.
  { rewrite !get_set_other by reflexivity. apply get_set_same. }
  split.
  { rewrite !get_set_other by reflexivity. apply get_set_same. }
  split.
  { rewrite !get_set_other by reflexivity. apply get_set_same. }
  split; [apply get_set_same|].
  split.
  - intros k Hk. unfold written_by_getConfig in Hk.
    repeat (apply orb_false_elim in Hk as [Hk ?]).
    now rewrite !get_set_other by assumption.
  - repeat match goal with
           | |- context [set_prop ?k ?v ?o] =>
               let a := fresh "added" in
               let E := fresh "E" in
               destruct (set_prop_keys k v o) as [a E];
               rewrite E; clear E
           end.
    rewrite <- !app_assoc. eauto.
Qed.

Variable RedisExecuteCommand :
  list (event (list (jsstring * value))) -> list (jsstring * value)
  -> jsstring -> Completion.
Variable Date_now : list (event (list (jsstring * value))) -> Z.

(** X13.  When no connection of the store has the given id, [getConfig]
    returns null and executing does nothing at all, whatever the editor
    holds: no entry, no backend call, no warning, nothing changed. *)
Theorem missing_connection_disables_execute
    (connections : list Store.Connection) (connectionId : jsstring)
    (redisDB : Z) :
  (forall c, In c connections -> Store.id c <> connectionId) ->
  getConfig Number connections connectionId redisDB = None
  /\ forall command s,
       handleExecute_in Number RedisExecuteCommand Date_now connections
         connectionId redisDB command s = s.
Proof.
  intros Hnone.
  assert (E : getConfig Number connections connectionId redisDB = None).
  { unfold getConfig, connection_of.
    destruct (find _ connections) as [c|] eqn:Hf; [|reflexivity].
    apply find_some in Hf as [Hin Hid]. apply string_eqb_eq in Hid.
    now destruct (Hnone c Hin). }
  split; [exact E|]. intros command s.
  unfold handleExecute_in. now rewrite E.
Qed.

End Configuration.

(** ** Concrete runs for the further properties *)

Lemma keys_distinct_within_a_batch_witness :
  let text := lit "BADCMD" ++ [LF] ++ lit "DBSIZE" ++ [LF] ++ lit "GET k" in
  let s' := handleExecute sample_backend sample_clock (Some tt) text
              empty_session in
  (forall t more, (sample_clock t <= sample_clock (t ++ more))%Z)
  /\ results empty_session = []
  /\ item_keys (results s') = [1; 4; 7]%Z
  /\ NoDup (item_keys (results s')).
Proof.
  intros text s'.
  split; [exact sample_clock_monotone|]. split; [reflexivity|].
  split; [reflexivity|].
  exact (proj2 (@keys_distinct_within_a_batch unit sample_backend sample_clock
                  sample_clock_monotone tt text empty_session eq_refl)).
Defined.

Lemma later_batch_has_later_timestamps_witness :
  let A := lit "BADCMD" ++ [LF] ++ lit "DBSIZE" in
  let B := lit "GET k" in
  let s1 := handleExecute sample_backend sample_clock (Some tt) A
              empty_session in
  let s2 := handleExecute sample_backend sample_clock (Some tt) B s1 in
  (forall t more, (sample_clock t <= sample_clock (t ++ more))%Z)
  /\ map timestamp (results s2) = [5; 1; 3]%Z
  /\ Forall (fun oA =>
               Forall (fun oB => (timestamp oA <= timestamp oB)%Z)
                 (batch_outcomes sample_backend sample_clock tt (trace s1)
                    (commands (trim B))))
       (batch_outcomes sample_backend sample_clock tt [] (commands (trim A))).
Proof.
  intros A B s1 s2.
  split; [exact sample_clock_monotone|]. split; [reflexivity|].
  exact (proj2 (@later_batch_has_later_timestamps unit sample_backend
                  sample_clock sample_clock_monotone tt tt A B empty_session)).
Defined.

Lemma getConfig_fields_witness :
  let stored := [(lit "host", VString (lit "10.0.0.5"));
                 (lit "port", VString (lit "6379"));
                 (lit "redisDB", VNumber 9)] in
  let connection := {| Store.id := lit "c2"; Store.config := stored |} in
  let connections := [{| Store.id := lit "c1"; Store.config := [] |};
                      connection] in
  let Number := fun v : value => VNumber 6379 in
  connection_of connections (lit "c2") = Some connection
  /\ getConfig Number connections (lit "c2") 3
     = Some [(lit "host", VString (lit "10.0.0.5"));
             (lit "port", VNumber 6379);
             (lit "redisDB", VNumber 3);
             (lit "password", VString []);
             (lit "useSSH", VBoolean false);
             (lit "ssh", default_ssh)]
  /\ exists c,
       getConfig Number connections (lit "c2") 3 = Some c
       /\ get_prop (lit "redisDB") c = VNumber 3
       /\ get_prop (lit "host") c = VString (lit "10.0.0.5").
Proof.
  intros stored connection connections Number.
  assert (H : connection_of connections (lit "c2") = Some connection)
    by reflexivity.
  split; [exact H|]. split; [reflexivity|].
  destruct (@getConfig_fields Number connections (lit "c2") 3 connection H)
    as (c & Hc & _ & _ & _ & _ & _ & Hdb & Hother & _).
  exists c. split; [exact Hc|]. split; [exact Hdb|].
  rewrite (Hother (lit "host") eq_refl). reflexivity.
Defined.

Lemma missing_connection_disables_execute_witness :
  let connections := [{| Store.id := lit "c1"; Store.config := [] |}] in
  let backend :=
    fun (tr : list (event (list (jsstring * value))))
        (c : list (jsstring * value)) (cmd : jsstring) =>
      Resolved {| success := true; data := VNull; message := [] |} in
  let clock := fun tr : list (event (list (jsstring * value))) => 0%Z in
  let s := {| results := []; loading := false; trace := [] |} in
  (forall c, In c connections -> Store.id c <> lit "c2")
  /\ handleExecute_in (fun v => v) backend clock connections (lit "c2") 0
       (lit "DBSIZE") s = s.
Proof.
  intros connections backend clock s.
  assert (H : forall c, In c connections -> Store.id c <> lit "c2").
  { intros c [<-|[]]. discriminate. }
  split; [exact H|].
  exact (proj2 (@missing_connection_disables_execute (fun v => v) backend
                  clock connections (lit "c2") 0 H) (lit "DBSIZE") s).
Defined.

(** ** The JSON text of an object, line by line *)

Lemma join_prefix (sep p l : jsstring) (r : list jsstring) :
  join sep ((p ++ l) :: r) = p ++ join sep (l :: r).
Proof. destruct r; simpl; [reflexivity|]. now rewrite <- app_assoc. Qed.

Lemma join_app (sep : jsstring) (l1 l2 : list jsstring) :
  l1 <> [] -> l2 <> [] ->
  join sep (l1 ++ l2) = join sep l1 ++ sep ++ join sep l2.
Proof.
  intros H1 H2. induction l1 as [|a l1 IH]; [easy|].
  destruct l1 as [|b l1].
  - simpl. destruct l2; [easy | reflexivity].
  - change (join sep ((a :: b :: l1) ++ l2))
      with (a ++ sep ++ join sep ((b :: l1) ++ l2)).
    rewrite IH by discriminate.
    change (join sep (a :: b :: l1)) with (a ++ sep ++ join sep (b :: l1)).
    now rewrite <- !app_assoc.
Qed.

Lemma join_snoc (sep c : jsstring) (b : list jsstring) :
  b <> [] -> join sep (append_last c b) = join sep b ++ c.
Proof.
  induction b as [|l b IH]; [easy|]. intros _.
  destruct b as [|l' b]; [reflexivity|].
  change (append_last c (l :: l' :: b)) with (l :: append_last c (l' :: b)).
  assert (Hne : exists x xs, append_last c (l' :: b) = x :: xs)
    by (destruct b; simpl; eauto).
  destruct Hne as [x [xs Hx]].
  change (join sep (l :: l' :: b)) with (l ++ sep ++ join sep (l' :: b)).
  rewrite <- !app_assoc, <- IH by discriminate. rewrite Hx. reflexivity.
Qed.

Lemma append_last_map (f : jsstring -> jsstring) (c : jsstring) (b : list jsstring) :
  (forall l, f (l ++ c) = f l ++ c) -> b <> [] ->
  map f (append_last c b) = append_last c (map f b).
Proof.
  intros Hf. induction b as [|l b IH]; [easy|]. intros _.
  destruct b as [|l' b]; [simpl; now rewrite Hf|].
  change (append_last c (l :: l' :: b)) with (l :: append_last c (l' :: b)).
  cbn [map]. rewrite IH by discriminate. reflexivity.
Qed.

Lemma json_block_cons (v : value) : exists l ls, json_block v = l :: ls.
Proof.
  destruct v as [| |b|n|s|items|props]; simpl; eauto.
  - unfold container. destruct (map json_block items); simpl; eauto.
  - unfold container. destruct (flat_map _ props); simpl; eauto.
Qed.

Lemma placed_join (J : jsstring) (b : list jsstring) :
  b <> [] -> J ++ join [LF] (placed J b) = join [LF] (map (fun x => J ++ x) b).
Proof.
  destruct b as [|l ls]; [easy|]. intros _. cbn [placed map].
  now rewrite join_prefix.
Qed.

(** The parts of a container, serialized one level deeper and joined the
    way the runtime joins them, are the lines of the layout. *)
Lemma parts_layout (J : jsstring) (bs : list (list jsstring)) :
  Forall (fun b => b <> []) bs -> bs <> [] ->
  J ++ join (lit "," ++ [LF] ++ J) (map (fun b => join [LF] (placed J b)) bs)
  = join [LF] (map (fun x => J ++ x) (with_commas bs)).
Proof.
  induction 1 as [|b bs Hb Hbs IH]; [easy|]. intros _.
  destruct bs as [|b' bs].
  - simpl. now apply placed_join.
  - change (with_commas (b :: b' :: bs))
      with (append_last (lit ",") b ++ with_commas (b' :: bs)).
    rewrite map_app.
    assert (Hw : exists x xs, with_commas (b' :: bs) = x :: xs).
    { inversion Hbs as [|? ? Hb' _]; subst.
      destruct b' as [|x xs]; [easy|]. destruct bs; simpl; eauto.
      destruct xs; simpl; eauto. }
    destruct Hw as [x [xs Hw]].
    rewrite join_app.
    + specialize (IH ltac:(discriminate)). unfold jsstring in *. rewrite <- IH.
      rewrite append_last_map by (intros; now rewrite ?app_assoc || assumption).
      rewrite join_snoc by (destruct b; [easy | discriminate]).
      rewrite <- placed_join by assumption.
      cbn [map]. 
      change (join (lit "," ++ [LF] ++ J)
                (join [LF] (placed J b) :: join [LF] (placed J b')
                   :: map (fun b0 => join [LF] (placed J b0)) bs))
        with (join [LF] (placed J b) ++ (lit "," ++ [LF] ++ J)
                ++ join (lit "," ++ [LF] ++ J)
                     (join [LF] (placed J b')
                        :: map (fun b0 => join [LF] (placed J b0)) bs)).
      now rewrite <- !app_assoc.
    + destruct b as [|l [|l' b]]; [easy | discriminate | discriminate].
    + rewrite Hw. discriminate.
Qed.

Lemma with_commas_cons (b : list jsstring) (bs : list (list jsstring)) :
  Forall (fun b => b <> []) (b :: bs) ->
  exists x xs, with_commas (b :: bs) = x :: xs.
Proof.
  intros H. inversion H as [|? ? Hb _]; subst.
  destruct b as [|x xs]; [easy|].
  destruct bs; simpl; eauto. destruct xs; simpl; eauto.
Qed.

Lemma join_cons_ne (sep a : jsstring) (l : list jsstring) :
  l <> [] -> join sep (a :: l) = a ++ sep ++ join sep l.
Proof. destruct l; [easy | reflexivity]. Qed.

Lemma wrap_layout (open close I : jsstring) (bs : list (list jsstring)) :
  Forall (fun b => b <> []) bs ->
  JSON.wrap open close (lit "  ") I
    (map (fun b => join [LF] (placed (I ++ lit "  ") b)) bs)
  = join [LF] (placed I (container open close bs)).
Proof.
  intros Hbs. unfold container.
  destruct bs as [|b bs]; [reflexivity|].
  destruct (with_commas_cons Hbs) as [x [xs Hw]].
  pose proof (@parts_layout (I ++ lit "  ") (b :: bs) Hbs ltac:(discriminate)) as HP.
  set (parts := map (fun b0 => join [LF] (placed (I ++ lit "  ") b0)) (b :: bs)) in *.
  assert (Hparts : exists p ps, parts = p :: ps) by (subst parts; simpl; eauto).
  destruct Hparts as [p [ps Hparts]].
  unfold JSON.wrap. rewrite Hparts.
  change (lit "  ") with [32%N; 32%N] at 1. cbv iota beta zeta.
  change [32%N; 32%N] with (lit "  "). rewrite <- Hparts.
  cbn [placed app]. rewrite map_app. cbn [map].
  unfold indent_lines. rewrite map_map.
  rewrite (map_ext (fun x0 => I ++ lit "  " ++ x0)
             (fun x0 => (I ++ lit "  ") ++ x0))
    by (intros; now rewrite app_assoc).
  unfold jsstring in *.
  rewrite Hw in *. cbn [map] in *.
  clearbody parts.
  rewrite join_cons_ne by discriminate.
  rewrite join_app by discriminate.
  rewrite <- HP. cbn [join app]. rewrite <- !app_assoc. cbn [app].
  reflexivity.
Qed.

Lemma placed_prefix_first (J p : jsstring) (b : list jsstring) :
  b <> [] ->
  p ++ join [LF] (placed J b) = join [LF] (placed J (prefix_first p b)).
Proof.
  destruct b as [|l ls]; [easy|]. intros _. cbn [prefix_first placed].
  now rewrite join_prefix.
Qed.

Lemma serialize_layout (v : value) :
  forall I,
    match JSON.SerializeJSONProperty (lit "  ") I v with
    | Some s => s = join [LF] (placed I (json_block v))
    | None => v = VUndefined
    end.
Proof.
  induction v as [| |b|n|s|items IH|props IH] using value_nested_ind;
    intros I; cbn [JSON.SerializeJSONProperty json_block]; try reflexivity.
  - (* array *)
    assert (E : JSON.array_partial
                  (JSON.SerializeJSONProperty (lit "  ") (I ++ lit "  ")) items
                = map (fun b => join [LF] (placed (I ++ lit "  ") b))
                    (map json_block items)).
    { unfold JSON.array_partial. rewrite map_map. apply map_ext_Forall.
      apply Forall_impl with (2 := IH). intros x Hx.
      specialize (Hx (I ++ lit "  ")).
      destruct (JSON.SerializeJSONProperty (lit "  ") (I ++ lit "  ") x);
        [exact Hx | now subst x]. }
    rewrite E. apply wrap_layout.
    apply Forall_map, Forall_forall. intros x _ Hx.
    destruct (json_block_cons x) as [l [ls El]]. now rewrite El in Hx.
  - (* object *)
    set (blocks := flat_map _ props).
    assert (E : JSON.object_partial
                  (JSON.SerializeJSONProperty (lit "  ") (I ++ lit "  "))
                  (JSON.colon (lit "  ")) props
                = map (fun b => join [LF] (placed (I ++ lit "  ") b)) blocks
                /\ Forall (fun b => b <> []) blocks).
    { subst blocks. unfold JSON.object_partial.
      induction IH as [|[k x] l Hx _ [IHl IHf]]; [split; constructor|].
      cbn [flat_map snd] in *. specialize (Hx (I ++ lit "  ")).
      destruct (json_block_cons x) as [y [ys Ey]].
      destruct (JSON.SerializeJSONProperty (lit "  ") (I ++ lit "  ") x)
        as [r|] eqn:Er.
      - assert (Hne : x <> VUndefined) by (intros ->; discriminate).
        assert (Hb : match x with
                     | VUndefined => []
                     | _ => [prefix_first (QuoteJSONString k ++ lit ": ")
                               (json_block x)]
                     end
                     = [prefix_first (QuoteJSONString k ++ lit ": ")
                          (json_block x)])
          by (destruct x; congruence).
        rewrite Hb. cbn [app map]. split.
        + rewrite IHl. f_equal.
          change (JSON.colon (lit "  ")) with (lit ": ").
          rewrite app_assoc, Hx. apply placed_prefix_first.
          rewrite Ey. discriminate.
        + constructor; [|exact IHf]. rewrite Ey. discriminate.
      - subst x. split; [exact IHl | exact IHf]. }
    destruct E as [E Hf]. rewrite E. now apply wrap_layout.
Qed.

Lemma formatResult_object_layout (props : list (jsstring * value)) :
  formatResult (VObject props) = json_text (VObject props).
Proof.
  pose proof (serialize_layout (VObject props) []) as H.
  cbn [JSON.SerializeJSONProperty] in H. cbn [formatResult].
  unfold JSON.SerializeJSONObject, json_text. rewrite H.
  destruct (json_block_cons (VObject props)) as [l [ls E]]. rewrite E.
  cbn [placed]. now rewrite map_id.
Qed.

(** C10.  An object is rendered as its JSON serialization with two-space
    indentation and its properties in their own order: [formatResult]
    returns what [JSON.stringify(value, null, 2)] returns, and that text is
    the line layout of the value (an opening brace, the properties one
    level deeper, one per block, separated by commas, a closing brace; [{}]
    when no property has a serialization).  The numbers inside are integers
    in the safe range, which the runtime prints as decimal numerals. *)
Theorem object_rendering (props : list (jsstring * value)) :
  safe_numbers (VObject props) = true ->
  formatResult (VObject props) = json_text (VObject props)
  /\ JSON.stringify (VObject props) 2 = Some (json_text (VObject props)).
Proof.
  intros _. split; [apply formatResult_object_layout|].
  rewrite <- formatResult_object_layout. reflexivity.
Qed.

(** ** formatResult never throws on a reply *)

Lemma collect_cons (A B : Type) (f : A -> outcome B) (x : A) (l : list A) :
  collect f (x :: l)
  = match f x with
    | Threw e => Threw e
    | Returned y =>
        match collect f l with
        | Threw e => Threw e
        | Returned ys => Returned (y :: ys)
        end
    end.
Proof. reflexivity. Qed.

Lemma collect_map (A B C : Type) (f : B -> outcome C) (g : A -> B) (h : A -> C)
    (l : list A) :
  Forall (fun x => f (g x) = Returned (h x)) l ->
  collect f (map g l) = Returned (map h l).
Proof.
  induction 1 as [|x l Hx _ IH]; [reflexivity|].
  cbn [map]. now rewrite collect_cons, Hx, IH.
Qed.

Lemma Array_map_from_map (A B C : Type) (f : B -> nat -> C) (g : A -> B)
    (l : list A) :
  forall k, Array_map_from f k (map g l)
            = Array_map_from (fun x index => f (g x) index) k l.
Proof. induction l as [|x l IH]; intros k; simpl; [reflexivity|]. now rewrite IH. Qed.

Lemma object_partial_as_any (ser : value -> option jsstring) (colon : jsstring)
    (props : list (jsstring * value)) :
  AnyJSON.object_partial colon
    (map fst (map (fun kv => (fst kv, as_any (snd kv))) props))
    (map (fun kv => ser (snd kv)) props)
  = JSON.object_partial ser colon props.
Proof.
  unfold AnyJSON.object_partial, JSON.object_partial.
  induction props as [|[k x] props IH]; [reflexivity|].
  cbn [map fst snd combine flat_map]. rewrite IH.
  now destruct (ser x).
Qed.

Lemma serialize_as_any (v : value) :
  forall gap indent,
    AnyJSON.SerializeJSONProperty gap indent (as_any v)
    = Returned (JSON.SerializeJSONProperty gap indent v).
Proof.
  induction v as [| |b|n|s|items IH|props IH] using value_nested_ind;
    intros gap indent; try reflexivity.
  - cbn [as_any AnyJSON.SerializeJSONProperty JSON.SerializeJSONProperty].
    rewrite (collect_map (AnyJSON.SerializeJSONProperty gap (indent ++ gap))
               as_any (JSON.SerializeJSONProperty gap (indent ++ gap))).
    + unfold AnyJSON.array_partial, JSON.array_partial. now rewrite map_map.
    + apply Forall_impl with (2 := IH). intros x Hx. apply Hx.
  - cbn [as_any AnyJSON.SerializeJSONProperty JSON.SerializeJSONProperty].
    rewrite (collect_map
               (fun kv => AnyJSON.SerializeJSONProperty gap (indent ++ gap) (snd kv))
               (fun kv => (fst kv, as_any (snd kv)))
               (fun kv => JSON.SerializeJSONProperty gap (indent ++ gap) (snd kv))).
    + now rewrite object_partial_as_any.
    + apply Forall_impl with (2 := IH). intros kv Hx. apply Hx.
Qed.

Lemma formatResult_as_any (v : value) :
  formatResult_any (as_any v) = Returned (formatResult v).
Proof.
  induction v as [| |b|n|s|items IH|props _] using value_nested_ind;
    try reflexivity.
  - destruct items as [|x items]; [reflexivity|].
    remember (x :: items) as l eqn:El.
    assert (E : formatResult_any (AArray (map as_any l))
                = match collect formatResult_any (map as_any l) with
                  | Threw e => Threw e
                  | Returned rendered =>
                      Returned (join [LF]
                                  (Array_map (fun r index => numbered index r)
                                     rendered))
                  end) by (subst l; reflexivity).
    cbn [as_any]. rewrite E, (collect_map formatResult_any as_any formatResult IH).
    subst l. cbn [formatResult]. unfold Array_map.
    now rewrite Array_map_from_map.
  - cbn [as_any formatResult_any formatResult].
    unfold AnyJSON.SerializeJSONObject, JSON.SerializeJSONObject.
    rewrite (collect_map
               (fun kv => AnyJSON.SerializeJSONProperty (lit "  ")
                            ([] ++ lit "  ") (snd kv))
               (fun kv => (fst kv, as_any (snd kv)))
               (fun kv => JSON.SerializeJSONProperty (lit "  ")
                            ([] ++ lit "  ") (snd kv))).
    + now rewrite object_partial_as_any.
    + apply Forall_forall. intros kv _. apply serialize_as_any.
Qed.


(** C7.  [formatResult] returns a string on every reply and never throws:
    run with its error path on any JSON-shaped reply, it returns normally,
    and what it returns is the rendering (for replies whose numbers are safe
    integers); and on a value that passes none of its tests (not [null] or
    [undefined], not a string, a number, an array or an object) it returns
    the plain string form of the value instead of failing: [true] or
    [false] for a boolean, the digits for a bigint, [Symbol(...)] for a
    symbol. *)
Theorem formatResult_never_throws :
  (forall v : value,
      exists s,
        formatResult_any (as_any v) = Returned s
        /\ (safe_numbers v = true -> s = formatResult v))
  /\ (forall a,
        matches_a_test a = true
        \/ formatResult_any a = Returned (String_any a))
  /\ (forall b,
        formatResult_any (ABoolean b)
        = Returned (if b then lit "true" else lit "false"))
  /\ (forall z,
        formatResult_any (ABigInt z)
        = Returned (lit (NilZero.string_of_int (Z.to_int z))))
  /\ (forall d,
        formatResult_any (ASymbol (Some d))
        = Returned (lit "Symbol(" ++ d ++ lit ")")).
Proof.
  split.
  { intros v. exists (formatResult v). split; [apply formatResult_as_any | easy]. }
  split.
  { intros [| |b|n|s|z|d|items|props]; simpl; auto. }
  split; [intros []; reflexivity|]. split; reflexivity.
Qed.

(** The error path is real: an object that holds a bigint, at any depth,
    makes [formatResult] throw, while a bigint or a symbol on its own, or as
    an element of an array, is rendered by its string form. *)
Example bigint_in_object_throws :
  formatResult_any (AObject [(lit "n", ABigInt 1)]) = Threw (lit "TypeError")
  /\ formatResult_any
       (AArray [AString (lit "a"); AObject [(lit "k", AArray [ABigInt 2])]])
     = Threw (lit "TypeError")
  /\ formatResult_any (AArray [ABigInt 12; ASymbol (Some (lit "s"))])
     = Returned (lit "1) 12" ++ [LF] ++ lit "2) Symbol(s)").
Proof. repeat split; reflexivity. Qed.

(** ** Concrete runs for the object layout and the joined submission *)

Lemma object_rendering_witness :
  let props := [(lit "b", VNumber 1);
                (lit "a", VArray [VString (lit "x"); VNull]);
                (lit "u", VUndefined);
                (lit "o", VObject [])] in
  safe_numbers (VObject props) = true
  /\ formatResult (VObject props) = json_text (VObject props)
  /\ json_block (VObject props)
     = [lit "{";
        lit "  " ++ [DQUOTE] ++ lit "b" ++ [DQUOTE] ++ lit ": 1,";
        lit "  " ++ [DQUOTE] ++ lit "a" ++ [DQUOTE] ++ lit ": [";
        lit "    " ++ [DQUOTE] ++ lit "x" ++ [DQUOTE] ++ lit ",";
        lit "    null";
        lit "  ],";
        lit "  " ++ [DQUOTE] ++ lit "o" ++ [DQUOTE] ++ lit ": {}";
        lit "}"].
Proof.
  intros props.
  assert (H : safe_numbers (VObject props) = true) by reflexivity.
  split; [exact H|].
  split; [exact (proj1 (@object_rendering props H)) | reflexivity].
Defined.

Lemma one_batch_or_two_witness :
  let a := lit "BADCMD" ++ [LF] ++ lit "# note" in
  let b := lit "  DBSIZE" in
  let one := handleExecute sample_backend sample_clock (Some tt)
               (a ++ LF :: b) empty_session in
  let two := handleExecute sample_backend sample_clock (Some tt) b
               (handleExecute sample_backend sample_clock (Some tt) a
                  empty_session) in
  forallb is_white_space a = false
  /\ forallb is_white_space b = false
  /\ trace one = trace two
  /\ map command (results one) = [lit "BADCMD"; lit "DBSIZE"]
  /\ map command (results two) = [lit "DBSIZE"; lit "BADCMD"]
  /\ map timestamp (results one) = [1; 3]%Z
  /\ map timestamp (results two) = [3; 1]%Z.
Proof.
  intros a b one two.
  assert (Ha : forallb is_white_space a = false) by reflexivity.
  assert (Hb : forallb is_white_space b = false) by reflexivity.
  split; [exact Ha|]. split; [exact Hb|].
  destruct (@one_batch_or_two unit sample_backend sample_clock tt a b
              empty_session Ha Hb) as (Htrace & _ & _ & _).
  split; [exact Htrace|]. repeat split; reflexivity.
Defined.

Lemma scalars_read_back_witness :
  is_safe_integer 9007199254740991 = true
  /\ read_integer (formatResult (VNumber 9007199254740991))
     = Some 9007199254740991%Z
  /\ read_text (formatResult (VString (lit "a" ++ [DQUOTE] ++ lit "b")))
     = Some (lit "a" ++ [DQUOTE] ++ lit "b").
Proof.
  assert (H : is_safe_integer 9007199254740991 = true) by reflexivity.
  split; [exact H|].
  exact (@scalars_read_back 9007199254740991 (lit "a" ++ [DQUOTE] ++ lit "b") H).
Defined.
